(** * compound-errors: [withErrors] over a JavaScript object heap

    The program under study is [src/withErrors.ts]: the predicate
    [isClass] and the function [withErrors].  Both are a few lines of
    TypeScript whose whole behaviour sits in the JavaScript operations
    they call: [typeof], method lookup through the prototype chain,
    [Function.prototype.toString], [String.prototype.startsWith],
    [for ... in], [Object.assign] and property assignment in strict
    code (the file is an ES module, hence strict).

    The development therefore fixes a model of the object heap and of
    those operations, following ECMA-262 ([OrdinaryGet], [OrdinarySet],
    [OrdinaryOwnPropertyKeys], [EnumerateObjectProperties], [ToObject],
    [ToBoolean]), and then transcribes the two functions line by line.

    Scope of the model:
    - objects are ordinary objects and function objects, and the
      wrappers of primitives; arrays, Proxy objects and other exotic
      objects are left out;
    - property keys are strings (symbol keys are left out);
    - properties are data properties with their [writable] and
      [enumerable] attributes (accessor properties are left out);
    - strings are sequences of one-byte code units, numbers are integers;
    - user functions are opaque: a call of one is given by a parameter
      [user_call] that may return, throw and change the heap at will;
    - [for ... in] fixes its keys when the loop starts;
    - a situation that no JavaScript heap can show (a dangling reference,
      a cyclic prototype chain) or that the model does not describe
      ([startsWith] called on a receiver that is not a string)
      evaluates to [Unmodelled], about which no theorem concludes
      anything. *)

From Stdlib Require Import String Ascii ZArith NArith List Lia Bool.
From stdpp Require Import base option list gmap strings pretty.
Import ListNotations.
Local Open Scope string_scope.

(** ** Values, properties, objects *)

Definition loc := positive.

Inductive value :=
| VUndefined
| VNull
| VBool (b : bool)
| VNumber (n : Z)
| VString (s : string)
| VObject (l : loc).

#[global] Instance value_eq_dec : EqDecision value.
Proof. solve_decision. Defined.

(** A data property: [[Value]], [[Writable]], [[Enumerable]]. *)
Record property := Data {
  p_value : value;
  p_writable : bool;
  p_enumerable : bool
}.

(** What a call of a function object runs. *)
Inductive code :=
| FunctionPrototypeToString
| StringPrototypeStartsWith
| UserCode (id : nat).

(** The internal slots of a function object: [[SourceText]],
    [[IsClassConstructor]] and the code behind [[Call]]. *)
Record function_slots := {
  source_text : string;
  is_class_constructor : bool;
  body : code
}.

(** An ordinary object.  [props] lists the own properties in the order
    of [OrdinaryOwnPropertyKeys]; [call] is present on function
    objects. *)
Record object := {
  proto : option loc;
  extensible : bool;
  props : list (string * property);
  call : option function_slots
}.

Abbreviation heap := (gmap loc object).

Definition with_props (o : object) (ps : list (string * property)) : object :=
  {| proto := proto o; extensible := extensible o; props := ps; call := call o |}.

(** The prototypes that property access on a primitive goes through sit
    at fixed places of the heap. *)
Definition String_prototype : loc := 1%positive.
Definition Number_prototype : loc := 2%positive.
Definition Boolean_prototype : loc := 3%positive.

(** ** Outcomes *)

Inductive exn :=
| TypeError
| Thrown (v : value).

Inductive result (A : Type) :=
| Ok (a : A)
| Throw (e : exn)
| Unmodelled.
Arguments Ok {A} a.
Arguments Throw {A} e.
Arguments Unmodelled {A}.

Definition bind {A B} (m : result A) (k : A -> result B) : result B :=
  match m with
  | Ok a => k a
  | Throw e => Throw e
  | Unmodelled => Unmodelled
  end.

Notation "'let*' x ':=' m 'in' k" := (bind m (fun x => k))
  (at level 10, x pattern, m at level 100, k at level 200).

Definition of_option {A} (o : option A) : result A :=
  match o with
  | Some a => Ok a
  | None => Unmodelled
  end.

(** ** Own properties *)

Fixpoint own_prop (ps : list (string * property)) (k : string) : option property :=
  match ps with
  | [] => None
  | (k', p) :: ps' => if String.eqb k' k then Some p else own_prop ps' k
  end.

Definition own_keys (ps : list (string * property)) : list string := map fst ps.

Definition is_digit (c : ascii) : bool :=
  (48 <=? nat_of_ascii c)%nat && (nat_of_ascii c <=? 57)%nat.

Fixpoint digits_value (s : string) (acc : N) : option N :=
  match s with
  | EmptyString => Some acc
  | String c s' =>
      if is_digit c then digits_value s' (10 * acc + (N_of_ascii c - 48))%N
      else None
  end.

(** A key is an array index when it is the canonical decimal form of an
    integer between 0 and 2^32 - 2. *)
Definition array_index (k : string) : option N :=
  match k with
  | EmptyString => None
  | String "0"%char EmptyString => Some 0%N
  | String "0"%char _ => None
  | _ =>
      match digits_value k 0 with
      | Some n => if (n <? 4294967295)%N then Some n else None
      | None => None
      end
  end.

(** A new array-index key goes among the index keys, in ascending
    order; any other new key goes last. *)
Fixpoint insert_index (n : N) (k : string) (p : property)
    (ps : list (string * property)) : list (string * property) :=
  match ps with
  | [] => [(k, p)]
  | (k', p') :: rest =>
      match array_index k' with
      | Some n' =>
          if (n' <? n)%N then (k', p') :: insert_index n k p rest
          else (k, p) :: ps
      | None => (k, p) :: ps
      end
  end.

Definition insert_new (k : string) (p : property)
    (ps : list (string * property)) : list (string * property) :=
  match array_index k with
  | Some n => insert_index n k p ps
  | None => ps ++ [(k, p)]
  end.

(** [[DefineOwnProperty]] with only a [[Value]]: the attributes stay. *)
Fixpoint update_value (k : string) (v : value)
    (ps : list (string * property)) : list (string * property) :=
  match ps with
  | [] => []
  | (k', p) :: rest =>
      if String.eqb k' k
      then (k', Data v (p_writable p) (p_enumerable p)) :: rest
      else (k', p) :: update_value k v rest
  end.

(** The own properties of a String exotic object: one read-only
    enumerable property per code unit, then [length]. *)
Fixpoint string_index_props (i : nat) (s : string) : list (string * property) :=
  match s with
  | EmptyString => []
  | String c s' =>
      (pretty i, Data (VString (String c EmptyString)) false true)
        :: string_index_props (S i) s'
  end.

Definition string_own_props (s : string) : list (string * property) :=
  string_index_props 0 s
    ++ [("length", Data (VNumber (Z.of_nat (String.length s))) false false)].

(** ** Prototype chains *)

Definition props_at (h : heap) (l : loc) : list (string * property) :=
  match h !! l with
  | Some o => props o
  | None => []
  end.

(** The objects on the prototype chain of [l], [l] first.  A chain
    visits an object once, so [size h] steps reach its end. *)
Fixpoint proto_chain_from (fuel : nat) (h : heap) (l : loc) : option (list loc) :=
  match fuel with
  | O => None
  | S n =>
      match h !! l with
      | None => None
      | Some o =>
          match proto o with
          | None => Some [l]
          | Some p =>
              match proto_chain_from n h p with
              | Some ch => Some (l :: ch)
              | None => None
              end
          end
      end
  end.

Definition proto_chain (h : heap) (l : loc) : option (list loc) :=
  proto_chain_from (size h) h l.

(** The own properties of a value: those of the object, or those of the
    wrapper that [ToObject] gives a primitive. *)
Definition own_props_of (h : heap) (v : value) : list (string * property) :=
  match v with
  | VObject l => props_at h l
  | VString s => string_own_props s
  | _ => []
  end.

(** The first property named [k] along a chain, with its holder. *)
Fixpoint find_prop (h : heap) (ch : list loc) (k : string) : option (loc * property) :=
  match ch with
  | [] => None
  | l :: ch' =>
      match own_prop (props_at h l) k with
      | Some p => Some (l, p)
      | None => find_prop h ch' k
      end
  end.

(** The levels that a property lookup on a value walks: its own
    properties, then those of each object up its chain.  [None] on
    [undefined] and [null], which have no properties. *)
Definition levels (h : heap) (v : value) : result (option (list (list (string * property)))) :=
  match v with
  | VUndefined | VNull => Ok None
  | VObject l =>
      let* ch := of_option (proto_chain h l) in
      Ok (Some (map (props_at h) ch))
  | VString s =>
      let* ch := of_option (proto_chain h String_prototype) in
      Ok (Some (string_own_props s :: map (props_at h) ch))
  | VNumber _ =>
      let* ch := of_option (proto_chain h Number_prototype) in
      Ok (Some (map (props_at h) ch))
  | VBool _ =>
      let* ch := of_option (proto_chain h Boolean_prototype) in
      Ok (Some (map (props_at h) ch))
  end.

Fixpoint find_level (lv : list (list (string * property))) (k : string) : option property :=
  match lv with
  | [] => None
  | ps :: rest =>
      match own_prop ps k with
      | Some p => Some p
      | None => find_level rest k
      end
  end.

(** [v[k]]: [GetV]. *)
Definition get_v (h : heap) (v : value) (k : string) : result value :=
  let* lv := levels h v in
  match lv with
  | None => Throw TypeError
  | Some lv =>
      match find_level lv k with
      | Some p => Ok (p_value p)
      | None => Ok VUndefined
      end
  end.

(** ** [for ... in] *)

Definition mem (k : string) (ks : list string) : bool :=
  existsb (String.eqb k) ks.

Definition enumerable_new (visited : list string) (ps : list (string * property)) : list string :=
  own_keys (List.filter (fun kp => p_enumerable (snd kp) && negb (mem (fst kp) visited)) ps).

(** [EnumerateObjectProperties]: the enumerable keys of each level that
    no earlier level holds, enumerable or not. *)
Fixpoint enumerate (visited : list string) (lv : list (list (string * property))) : list string :=
  match lv with
  | [] => []
  | ps :: rest => enumerable_new visited ps ++ enumerate (visited ++ own_keys ps) rest
  end.

(** The keys that [for (const k in v)] visits; none on [undefined] and
    [null].  The keys are fixed when the loop starts. *)
Definition for_in_keys (h : heap) (v : value) : result (list string) :=
  let* lv := levels h v in
  match lv with
  | None => Ok []
  | Some lv => Ok (enumerate [] lv)
  end.

Fixpoint for_each {A} (xs : list A) (step : A -> heap -> result heap) (h : heap) : result heap :=
  match xs with
  | [] => Ok h
  | x :: xs' =>
      let* h' := step x h in
      for_each xs' step h'
  end.

(** ** Assignment *)

(** [OrdinarySet] on the object [l] as its own receiver, a refusal
    raising [TypeError] as in strict code and in [Object.assign]. *)
Definition set_prop (h : heap) (l : loc) (k : string) (v : value) : result heap :=
  match h !! l, proto_chain h l with
  | Some o, Some ch =>
      match own_prop (props o) k with
      | Some p =>
          if p_writable p
          then Ok (<[l := with_props o (update_value k v (props o))]> h)
          else Throw TypeError
      | None =>
          match find_prop h (tail ch) k with
          | Some (_, p) =>
              if p_writable p && extensible o
              then Ok (<[l := with_props o (insert_new k (Data v true true) (props o))]> h)
              else Throw TypeError
          | None =>
              if extensible o
              then Ok (<[l := with_props o (insert_new k (Data v true true) (props o))]> h)
              else Throw TypeError
          end
      end
  | _, _ => Unmodelled
  end.

(** [base[k] = v] in strict code.  On a primitive base the receiver is
    not an object, so the assignment is refused. *)
Definition set_v (h : heap) (base : value) (k : string) (v : value) : result heap :=
  match base with
  | VObject l => set_prop h l k v
  | _ => Throw TypeError
  end.

(** ** [typeof], [ToBoolean], [ToObject] *)

Definition function_slots_of (h : heap) (v : value) : option function_slots :=
  match v with
  | VObject l =>
      match h !! l with
      | Some o => call o
      | None => None
      end
  | _ => None
  end.

Definition typeof (h : heap) (v : value) : string :=
  match v with
  | VUndefined => "undefined"
  | VNull => "object"
  | VBool _ => "boolean"
  | VNumber _ => "number"
  | VString _ => "string"
  | VObject _ =>
      match function_slots_of h v with
      | Some _ => "function"
      | None => "object"
      end
  end.

Definition to_boolean (v : value) : bool :=
  match v with
  | VUndefined | VNull => false
  | VBool b => b
  | VNumber n => negb (n =? 0)%Z
  | VString s => negb (String.eqb s EmptyString)
  | VObject _ => true
  end.

Definition wrapper (p : loc) (ps : list (string * property)) : object :=
  {| proto := Some p; extensible := true; props := ps; call := None |}.

(** [ToObject]: an object is itself, a primitive gets a fresh wrapper. *)
Definition to_object (h : heap) (v : value) : result (loc * heap) :=
  let l := fresh (dom h) in
  match v with
  | VUndefined | VNull => Throw TypeError
  | VObject l' => Ok (l', h)
  | VString s => Ok (l, <[l := wrapper String_prototype (string_own_props s)]> h)
  | VNumber _ => Ok (l, <[l := wrapper Number_prototype []]> h)
  | VBool _ => Ok (l, <[l := wrapper Boolean_prototype []]> h)
  end.

(** ** Calls *)

Section Program.

(** What the user functions of the heap do when called: the function's
    code identifier, the heap, [this] and the arguments give an outcome
    and a heap. *)
Variable user_call : nat -> heap -> value -> list value -> result (value * heap).

(** [Call(f, this, args)].  A value that is not a function object cannot
    be called, and a class constructor cannot be called without [new]. *)
Definition call_function (h : heap) (f this : value) (args : list value)
    : result (value * heap) :=
  match function_slots_of h f with
  | None => Throw TypeError
  | Some fs =>
      if is_class_constructor fs then Throw TypeError
      else
        match body fs with
        | FunctionPrototypeToString =>
            match function_slots_of h this with
            | Some ts => Ok (VString (source_text ts), h)
            | None => Throw TypeError
            end
        | StringPrototypeStartsWith =>
            match this, args with
            | VUndefined, _ | VNull, _ => Throw TypeError
            | VString s, [VString searchString] =>
                Ok (VBool (String.prefix searchString s), h)
            | _, _ => Unmodelled
            end
        | UserCode id => user_call id h this args
        end
  end.

(** ** The program

    [function isClass(input) {
       return typeof input === 'function'
           && input.toString().startsWith('class ');
     }] *)
Definition isClass (h : heap) (input : value) : result (value * heap) :=
  if String.eqb (typeof h input) "function" then
    let* toString := get_v h input "toString" in
    let* (text, h1) := call_function h toString input [] in
    let* startsWith := get_v h1 text "startsWith" in
    call_function h1 startsWith text [VString "class "]
  else Ok (VBool false, h).

(** [Object.assign(target, source)] with one source: each own key of
    the source is read when its turn comes, and copied if it is still
    there and enumerable. *)
Definition assign_key (from : value) (to : loc) (k : string) (h : heap) : result heap :=
  match own_prop (own_props_of h from) k with
  | Some p => if p_enumerable p then set_prop h to k (p_value p) else Ok h
  | None => Ok h
  end.

Definition Object_assign (h : heap) (target source : value) : result (value * heap) :=
  let* (to, h1) := to_object h target in
  let* h2 := for_each (own_keys (own_props_of h1 source)) (assign_key source to) h1 in
  Ok (VObject to, h2).

(** The body of the inner loop:
    [BaseClass.prototype[methodName][errorName] = errors[errorName];] *)
Definition annotate_slot (BaseClass : value) (methodName : string) (errors : value)
    (errorName : string) (h : heap) : result heap :=
  let* prototype := get_v h BaseClass "prototype" in
  let* method := get_v h prototype methodName in
  let* ctor := get_v h errors errorName in
  set_v h method errorName ctor.

(** The body of the outer loop:
    [if (typeof BaseClass.prototype[methodName] === 'function') {
       const errors = errorConfig[methodName];
       for (const errorName in errors) { ... }
     }] *)
Definition annotate_method (BaseClass errorConfig : value) (methodName : string)
    (h : heap) : result heap :=
  let* prototype := get_v h BaseClass "prototype" in
  let* method := get_v h prototype methodName in
  if String.eqb (typeof h method) "function" then
    let* errors := get_v h errorConfig methodName in
    let* errorNames := for_in_keys h errors in
    for_each errorNames (annotate_slot BaseClass methodName errors) h
  else Ok h.

(** [export function withErrors(target, config) {
       if (isClass(target)) {
         for (const methodName in errorConfig) { ... }
         return BaseClass;
       } else {
         return Object.assign(fn, errors);
       }
     }] *)
Definition withErrors (h : heap) (target config : value) : result (value * heap) :=
  let* (c, h1) := isClass h target in
  if to_boolean c then
    let* methodNames := for_in_keys h1 config in
    let* h2 := for_each methodNames (annotate_method target config) h1 in
    Ok (target, h2)
  else Object_assign h1 target config.

(** [classified h target b h1]: the discriminator completes on [target],
    leaves the heap [h1], and [if (isClass(target))] takes the class
    branch when [b] is [true], the function branch otherwise. *)
Definition classified (h : heap) (target : value) (b : bool) (h1 : heap) : Prop :=
  exists c, isClass h target = Ok (c, h1) /\ to_boolean c = b.

End Program.

(** ** A realm and the objects of the test suite

    The heap that [withErrors.test.ts] runs in, as far as the program
    looks at it: the built-in prototypes with their two methods, the
    class [CustomError], the class [MyClass] with its two methods, an
    arrow function, and the configuration literals. *)

Module Example.

Definition Object_prototype : loc := 4%positive.
Definition Function_prototype : loc := 5%positive.
Definition Function_prototype_toString : loc := 6%positive.
Definition String_prototype_startsWith : loc := 7%positive.
Definition CustomError : loc := 10%positive.
Definition CustomError_prototype : loc := 11%positive.
Definition MyClass : loc := 20%positive.
Definition MyClass_prototype : loc := 21%positive.
Definition method1 : loc := 22%positive.
Definition method2 : loc := 23%positive.
Definition classConfig : loc := 30%positive.
Definition method1Errors : loc := 31%positive.
Definition arrow : loc := 40%positive.
Definition errors : loc := 41%positive.
Definition instance : loc := 50%positive.
Definition OtherError : loc := 12%positive.
Definition OtherError_prototype : loc := 13%positive.
Definition inheritedConfig : loc := 32%positive.
Definition classConfigB : loc := 34%positive.
Definition mixedConfig : loc := 35%positive.
Definition absentConfig : loc := 36%positive.
Definition nameConfig : loc := 42%positive.
Definition mute : loc := 43%positive.
Definition inheritedErrors : loc := 44%positive.
Definition errorsB : loc := 45%positive.
Definition CompactClass : loc := 60%positive.
Definition CompactClass_prototype : loc := 61%positive.
Definition compact_method1 : loc := 62%positive.
Definition Base : loc := 70%positive.
Definition Base_prototype : loc := 71%positive.
Definition op : loc := 72%positive.
Definition Sub : loc := 73%positive.
Definition Sub_prototype : loc := 74%positive.
Definition baseInstance : loc := 75%positive.
Definition Other_prototype : loc := 77%positive.
Definition otherInstance : loc := 78%positive.
Definition subConfig : loc := 79%positive.
Definition opErrors : loc := 80%positive.

(** The attributes of a built-in method or a class method, of a
    property of an object literal, and of [name], [length] and a class's
    [prototype]. *)
Definition method_property (v : value) : property := Data v true false.
Definition literal_property (v : value) : property := Data v true true.
Definition readonly_property (v : value) : property := Data v false false.

Definition ordinary (p : option loc) (ps : list (string * property)) : object :=
  {| proto := p; extensible := true; props := ps; call := None |}.

Definition function_object (name : string) (length : Z) (more : list (string * property))
    (fs : function_slots) : object :=
  {| proto := Some Function_prototype;
     extensible := true;
     props := ("length", readonly_property (VNumber length))
              :: ("name", readonly_property (VString name)) :: more;
     call := Some fs |}.

Definition native (name : string) (c : code) : function_slots :=
  {| source_text := "function " ++ name ++ "() { [native code] }";
     is_class_constructor := false;
     body := c |}.

Definition class_definition (text : string) : function_slots :=
  {| source_text := text; is_class_constructor := true; body := UserCode 0 |}.

Definition user_function (text : string) (id : nat) : function_slots :=
  {| source_text := text; is_class_constructor := false; body := UserCode id |}.

Definition realm : list (loc * object) :=
  [ (String_prototype,
      ordinary (Some Object_prototype)
        [("startsWith", method_property (VObject String_prototype_startsWith))]);
    (Number_prototype, ordinary (Some Object_prototype) []);
    (Boolean_prototype, ordinary (Some Object_prototype) []);
    (Object_prototype, ordinary None []);
    (Function_prototype,
      {| proto := Some Object_prototype;
         extensible := true;
         props := [("length", readonly_property (VNumber 0));
                   ("name", readonly_property (VString EmptyString));
                   ("toString", method_property (VObject Function_prototype_toString))];
         call := Some (native EmptyString (UserCode 1)) |});
    (Function_prototype_toString,
      function_object "toString" 0 [] (native "toString" FunctionPrototypeToString));
    (String_prototype_startsWith,
      function_object "startsWith" 1 [] (native "startsWith" StringPrototypeStartsWith)) ].

Definition test_objects : list (loc * object) :=
  [ (CustomError,
      function_object "CustomError" 0
        [("prototype", readonly_property (VObject CustomError_prototype))]
        (class_definition "class CustomError extends Error {}"));
    (CustomError_prototype,
      ordinary (Some Object_prototype)
        [("constructor", method_property (VObject CustomError))]);
    (MyClass,
      function_object "MyClass" 0
        [("prototype", readonly_property (VObject MyClass_prototype))]
        (class_definition "class MyClass { method1() { throw new CustomError(); } method2() {} }"));
    (MyClass_prototype,
      ordinary (Some Object_prototype)
        [("constructor", method_property (VObject MyClass));
         ("method1", method_property (VObject method1));
         ("method2", method_property (VObject method2))]);
    (method1,
      function_object "method1" 0 []
        (user_function "method1() { throw new CustomError(); }" 2));
    (method2, function_object "method2" 0 [] (user_function "method2() {}" 1));
    (classConfig,
      ordinary (Some Object_prototype)
        [("method1", literal_property (VObject method1Errors))]);
    (method1Errors,
      ordinary (Some Object_prototype)
        [("CustomError", literal_property (VObject CustomError))]);
    (arrow,
      function_object EmptyString 0 []
        (user_function "() => { throw new CustomError(); }" 2));
    (errors,
      ordinary (Some Object_prototype)
        [("CustomError", literal_property (VObject CustomError))]);
    (instance, ordinary (Some MyClass_prototype) []) ].

(** Further objects: a second error class; configurations that
    inherit their keys ([Object.create(...)]), that name a method that
    does not exist, that collide with [name]; a function whose
    [toString] was set to [null]; a class written without a space after
    the keyword; a class [Sub] that extends [Base] and inherits its
    method [op], with instances of [Base] and of another subclass. *)
Definition more_objects : list (loc * object) :=
  [ (OtherError,
      function_object "OtherError" 0
        [("prototype", readonly_property (VObject OtherError_prototype))]
        (class_definition "class OtherError extends Error {}"));
    (OtherError_prototype,
      ordinary (Some Object_prototype)
        [("constructor", method_property (VObject OtherError))]);
    (inheritedConfig, ordinary (Some classConfig) []);
    (classConfigB,
      ordinary (Some Object_prototype) [("method1", literal_property (VObject errorsB))]);
    (mixedConfig,
      ordinary (Some Object_prototype)
        [("method1", literal_property (VObject method1Errors));
         ("noSuchMethod", literal_property (VObject errors))]);
    (absentConfig,
      ordinary (Some Object_prototype)
        [("noSuchMethod", literal_property (VObject errors));
         ("constructorName", literal_property (VString "MyClass"))]);
    (nameConfig,
      ordinary (Some Object_prototype) [("name", literal_property (VObject CustomError))]);
    (mute,
      function_object "mute" 0 [("toString", literal_property VNull)]
        (user_function "() => {}" 1));
    (inheritedErrors, ordinary (Some errors) []);
    (errorsB,
      ordinary (Some Object_prototype)
        [("CustomError", literal_property (VObject OtherError))]);
    (CompactClass,
      function_object EmptyString 0
        [("prototype", readonly_property (VObject CompactClass_prototype))]
        (class_definition "class{ method1() {} }"));
    (CompactClass_prototype,
      ordinary (Some Object_prototype)
        [("constructor", method_property (VObject CompactClass));
         ("method1", method_property (VObject compact_method1))]);
    (compact_method1, function_object "method1" 0 [] (user_function "method1() {}" 1));
    (Base,
      function_object "Base" 0
        [("prototype", readonly_property (VObject Base_prototype))]
        (class_definition "class Base { op() {} }"));
    (Base_prototype,
      ordinary (Some Object_prototype)
        [("constructor", method_property (VObject Base));
         ("op", method_property (VObject op))]);
    (op, function_object "op" 0 [] (user_function "op() {}" 1));
    (Sub,
      {| proto := Some Base;
         extensible := true;
         props := [("length", readonly_property (VNumber 0));
                   ("name", readonly_property (VString "Sub"));
                   ("prototype", readonly_property (VObject Sub_prototype))];
         call := Some (class_definition "class Sub extends Base {}") |});
    (Sub_prototype,
      ordinary (Some Base_prototype) [("constructor", method_property (VObject Sub))]);
    (baseInstance, ordinary (Some Base_prototype) []);
    (Other_prototype, ordinary (Some Base_prototype) []);
    (otherInstance, ordinary (Some Other_prototype) []);
    (subConfig,
      ordinary (Some Object_prototype) [("op", literal_property (VObject opErrors))]);
    (opErrors,
      ordinary (Some Object_prototype)
        [("CustomError", literal_property (VObject CustomError));
         ("OtherError", literal_property (VObject OtherError))]) ].

Definition test_heap : heap := list_to_map (realm ++ test_objects ++ more_objects).

(** The user code of the examples: code 1 returns [undefined], any
    other throws the string ["thrown"]. *)
Definition test_user_call (id : nat) (h : heap) (this : value) (args : list value)
    : result (value * heap) :=
  match id with
  | 1%nat => Ok (VUndefined, h)
  | _ => Throw (Thrown (VString "thrown"))
  end.

End Example.

(** ** Predicates used by the statements *)

(** How the own properties of an object may change under assignments:
    a property stays, or it was writable and still is, or it is new and
    writable.  Nothing is removed. *)
Definition props_evolve (ps ps' : list (string * property)) : Prop :=
  forall k,
    match own_prop ps k, own_prop ps' k with
    | Some p, Some p' => p' = p \/ (p_writable p = true /\ p_writable p' = true)
    | None, Some p' => p_writable p' = true
    | None, None => True
    | Some _, None => False
    end.

(** [evolves W h h']: [h'] comes from [h] by assignments to properties
    of objects in [W].  No object is created or removed, prototypes,
    extensibility and function slots stay, and objects outside [W] are
    untouched. *)
Definition evolves (W : loc -> Prop) (h h' : heap) : Prop :=
  dom h' = dom h /\
  forall l o, h !! l = Some o ->
    exists o', h' !! l = Some o' /\
      proto o' = proto o /\ call o' = call o /\ extensible o' = extensible o /\
      (~ W l -> o' = o) /\
      props_evolve (props o) (props o').

(** Whether [OrdinarySet] accepts an assignment to [k] on [l]. *)
Definition accepts (h : heap) (l : loc) (k : string) : bool :=
  match h !! l, proto_chain h l with
  | Some o, Some ch =>
      match own_prop (props o) k with
      | Some p => p_writable p
      | None =>
          match find_prop h (tail ch) k with
          | Some (_, p) => p_writable p && extensible o
          | None => extensible o
          end
      end
  | _, _ => false
  end.

(** The objects that a property lookup on [v] reads, beyond the own
    properties of a primitive. *)
Definition read_chain (h : heap) (v : value) : option (list loc) :=
  match v with
  | VUndefined | VNull => Some []
  | VObject l => proto_chain h l
  | VString _ => proto_chain h String_prototype
  | VNumber _ => proto_chain h Number_prototype
  | VBool _ => proto_chain h Boolean_prototype
  end.

(** [v] can be read, and reading it looks at no object of [W]. *)
Definition reads_outside (W : loc -> Prop) (h : heap) (v : value) : Prop :=
  exists ch, read_chain h v = Some ch /\ forall x, In x ch -> ~ W x.

Definition is_function (h : heap) (l : loc) : Prop :=
  function_slots_of h (VObject l) <> None.

(** The conditions under which a call completes.  In the function
    branch: every own enumerable key of the source is accepted on the
    target. *)
Definition function_call_accepted (h : heap) (f : loc) (source : value) : Prop :=
  forall k p, own_prop (own_props_of h source) k = Some p -> p_enumerable p = true ->
    accepts h f k = true.

(** [written h l k v h']: [h'] is [h] with the own properties of [l]
    changed at [k] only, where a writable property of value [v] now
    sits. *)
Definition written (h : heap) (l : loc) (k : string) (v : value) (h' : heap) : Prop :=
  exists o ps',
    h !! l = Some o /\
    h' = <[l := with_props o ps']> h /\
    (forall k', k' <> k -> own_prop ps' k' = own_prop (props o) k') /\
    ((exists p, own_prop (props o) k = Some p /\ p_writable p = true /\
                own_prop ps' k = Some (Data v true (p_enumerable p))) \/
     (own_prop (props o) k = None /\ own_prop ps' k = Some (Data v true true))).

(** The state of the copy loop: the heap came from [h1] by assignments
    to [f], and the source still shows the own properties it had. *)
Definition assign_inv (from : value) (f : loc) (h1 h : heap) : Prop :=
  evolves (eq f) h1 h /\
  forall k, own_prop (own_props_of h from) k = own_prop (own_props_of h1 from) k.

(** A class constructor holds its [prototype] as an own read-only
    property. *)
Definition has_readonly_prototype (h : heap) (c : loc) (P : value) : Prop :=
  is_Some (proto_chain h c) /\
  exists p, own_prop (props_at h c) "prototype" = Some p /\
            p_writable p = false /\ p_value p = P.

(** [f] is a function object, not a class, that runs the code [c]. *)
Definition runs (h : heap) (f : value) (c : code) : Prop :=
  exists fs, function_slots_of h f = Some fs /\
             is_class_constructor fs = false /\ body fs = c.

(** [v] is a function whose [toString] is [Function.prototype.toString],
    and the [startsWith] of its source text is
    [String.prototype.startsWith]. *)
Definition builtin_string_form (h : heap) (v : value) : Prop :=
  exists fs ts sw,
    function_slots_of h v = Some fs /\
    get_v h v "toString" = Ok ts /\ runs h ts FunctionPrototypeToString /\
    get_v h (VString (source_text fs)) "startsWith" = Ok sw /\
    runs h sw StringPrototypeStartsWith.

(** The functions that the keys [methodNames] name in the method
    table [p]. *)
Definition annotated (h : heap) (p : loc) (methodNames : list string) (f : loc) : Prop :=
  exists m, In m methodNames /\ get_v h (VObject p) m = Ok (VObject f) /\ is_function h f.

(** In the class branch: the constructor holds a read-only [prototype]
    object; reading the method table, the configuration and its values
    looks at no function object; and every slot is accepted on the
    function it goes to. *)
Definition class_call_accepted (h : heap) (c : loc) (errorConfig : value) : Prop :=
  exists p methodNames,
    has_readonly_prototype h c (VObject p) /\
    for_in_keys h errorConfig = Ok methodNames /\
    reads_outside (is_function h) h (VObject p) /\
    reads_outside (is_function h) h errorConfig /\
    (forall m errors, In m methodNames -> get_v h errorConfig m = Ok errors ->
       reads_outside (is_function h) h errors) /\
    (forall m f errors names e,
       In m methodNames -> get_v h (VObject p) m = Ok (VObject f) -> is_function h f ->
       get_v h errorConfig m = Ok errors -> for_in_keys h errors = Ok names ->
       In e names -> accepts h f e = true).

(** A [null] or [undefined] configuration asks for nothing. *)
Definition call_accepted (h : heap) (f : loc) (config : value) (class_branch : bool) : Prop :=
  config = VUndefined \/ config = VNull \/
  if class_branch then class_call_accepted h f config
  else function_call_accepted h f config.

(** ** Checks that compute, and the heaps after the calls *)

Definition not_function (h : heap) (x : loc) : bool :=
  match function_slots_of h (VObject x) with
  | Some _ => false
  | None => true
  end.

Definition chain_avoids (h : heap) (v : value) (test : loc -> bool) : bool :=
  match read_chain h v with
  | Some ch => forallb test ch
  | None => false
  end.

Definition heap_after (r : result (value * heap)) : heap :=
  match r with
  | Ok (_, h) => h
  | _ => ∅
  end.

(** The heaps that the calls of the test suite leave. *)
Definition after_arrow : heap :=
  heap_after
    (withErrors Example.test_user_call Example.test_heap
       (VObject Example.arrow) (VObject Example.errors)).

Definition after_MyClass : heap :=
  heap_after
    (withErrors Example.test_user_call Example.test_heap
       (VObject Example.MyClass) (VObject Example.classConfig)).


Definition after_mixed : heap :=
  heap_after
    (withErrors Example.test_user_call Example.test_heap
       (VObject Example.MyClass) (VObject Example.mixedConfig)).



(** ** [instanceof], and further objects

    [v instanceof C] as the tests and the README use it on the slots:
    [OrdinaryHasInstance], which looks for [C.prototype] up the
    prototype chain of [v].  A right-hand side that is an object but
    not a function depends on [Symbol.hasInstance] and is left out. *)
Definition instance_of (h : heap) (v C : value) : result bool :=
  match C with
  | VObject _ =>
      match function_slots_of h C with
      | None => Unmodelled
      | Some _ =>
          match v with
          | VObject l =>
              let* P := get_v h C "prototype" in
              match P with
              | VObject p =>
                  let* ch := of_option (proto_chain h l) in
                  Ok (existsb (Pos.eqb p) (tail ch))
              | _ => Throw TypeError
              end
          | _ => Ok false
          end
      end
  | _ => Throw TypeError
  end.

(** A value that is neither an object nor [undefined] nor [null]. *)
Definition is_primitive (v : value) : bool :=
  match v with
  | VBool _ | VNumber _ | VString _ => true
  | _ => false
  end.

(** The attributes that a copied key has on the target: writable, and
    enumerable unless the target held the key itself before, in which
    case it keeps the enumerability it had. *)
Definition slot_enumerable (before : option property) : bool :=
  match before with
  | Some q => p_enumerable q
  | None => true
  end.

Module Usage.

Definition serviceConfig : loc := 90%positive.
Definition nameSlotConfig : loc := 91%positive.
Definition nameSlots : loc := 92%positive.
Definition spoof : loc := 93%positive.
Definition spoof_toString : loc := 94%positive.
Definition voidText : loc := 95%positive.
Definition voidText_toString : loc := 96%positive.
Definition hiddenConfig : loc := 97%positive.
Definition emptyConfig : loc := 98%positive.
Definition plain : loc := 99%positive.

(** A configuration for both methods of [MyClass], as the README has
    for [UserService]; a slot named [name]; a function without
    [prototype] whose own [toString] answers ["class Spoof {}"]; a
    function whose own [toString] answers [undefined]; a configuration
    with a hidden (non-enumerable) key; an empty configuration; a plain
    object. *)
Definition usage_objects : list (loc * object) :=
  [ (serviceConfig,
      Example.ordinary (Some Example.Object_prototype)
        [("method1", Example.literal_property (VObject Example.method1Errors));
         ("method2", Example.literal_property (VObject Example.errorsB))]);
    (nameSlotConfig,
      Example.ordinary (Some Example.Object_prototype)
        [("method1", Example.literal_property (VObject nameSlots))]);
    (nameSlots,
      Example.ordinary (Some Example.Object_prototype)
        [("name", Example.literal_property (VObject Example.CustomError))]);
    (spoof,
      Example.function_object "spoof" 0
        [("toString", Example.literal_property (VObject spoof_toString))]
        (Example.user_function "() => {}" 1));
    (spoof_toString,
      Example.function_object "toString" 0 []
        (Example.user_function "() => 'class Spoof {}'" 3));
    (voidText,
      Example.function_object "voidText" 0
        [("toString", Example.literal_property (VObject voidText_toString))]
        (Example.user_function "() => {}" 1));
    (voidText_toString,
      Example.function_object "toString" 0 [] (Example.user_function "() => {}" 1));
    (hiddenConfig,
      Example.ordinary (Some Example.Object_prototype)
        [("hidden", Example.method_property (VObject Example.CustomError));
         ("shown", Example.literal_property (VObject Example.OtherError))]);
    (emptyConfig, Example.ordinary (Some Example.Object_prototype) []);
    (plain, Example.ordinary (Some Example.Object_prototype) []) ].

Definition usage_heap : heap :=
  list_to_map (Example.realm ++ Example.test_objects ++ Example.more_objects
                 ++ usage_objects).

(** Code 1 returns [undefined], code 3 returns the text of a class,
    any other code throws. *)
Definition usage_user_call (id : nat) (h : heap) (this : value) (args : list value)
    : result (value * heap) :=
  match id with
  | 1%nat => Ok (VUndefined, h)
  | 3%nat => Ok (VString "class Spoof {}", h)
  | _ => Throw (Thrown (VString "thrown"))
  end.

Definition run_on (target config : loc) : result (value * heap) :=
  withErrors usage_user_call usage_heap (VObject target) (VObject config).

(** The heaps that three calls leave: a class with a configuration for
    two methods, a function with a configuration that has a hidden key,
    and the method table of [MyClass] taken as the target. *)
Definition after_service : heap := heap_after (run_on Example.MyClass serviceConfig).

End Usage.

(** * Properties *)

(** ** Own properties under update and insertion *)

Lemma eqb_neq_false (a b : string) : a <> b -> String.eqb a b = false.
Proof. intros H. apply String.eqb_neq. exact H. Qed.

Lemma own_prop_update_eq k v ps p :
  own_prop ps k = Some p ->
  own_prop (update_value k v ps) k = Some (Data v (p_writable p) (p_enumerable p)).
Proof.
  induction ps as [|[k' q] ps IH]; simpl; [discriminate|].
  destruct (String.eqb k' k) eqn:E; simpl; rewrite E.
  - intros [= ->]. reflexivity.
  - exact IH.
Qed.

Lemma own_prop_update_ne k k' v ps :
  k' <> k -> own_prop (update_value k v ps) k' = own_prop ps k'.
Proof.
  intros Hne. induction ps as [|[k0 q] ps IH]; simpl; [reflexivity|].
  destruct (String.eqb k0 k) eqn:E; simpl.
  - destruct (String.eqb k0 k') eqn:E'; [|reflexivity].
    apply String.eqb_eq in E, E'. congruence.
  - rewrite IH. reflexivity.
Qed.

Lemma own_prop_app ps qs k :
  own_prop (ps ++ qs) k =
  match own_prop ps k with Some p => Some p | None => own_prop qs k end.
Proof.
  induction ps as [|[k' q] ps IH]; simpl; [reflexivity|].
  destruct (String.eqb k' k); [reflexivity|exact IH].
Qed.

Lemma own_prop_insert_index_eq n k p ps :
  own_prop ps k = None -> own_prop (insert_index n k p ps) k = Some p.
Proof.
  induction ps as [|[k' q] ps IH]; simpl.
  - rewrite String.eqb_refl. reflexivity.
  - destruct (String.eqb k' k) eqn:E; [discriminate|]. intros H.
    destruct (array_index k') as [n'|]; [destruct (n' <? n)%N|]; simpl;
      rewrite ?E, ?String.eqb_refl; auto.
Qed.

Lemma own_prop_insert_index_ne n k k' p ps :
  k' <> k -> own_prop (insert_index n k p ps) k' = own_prop ps k'.
Proof.
  intros Hne. assert (String.eqb k k' = false) as Hk
    by (apply eqb_neq_false; congruence).
  induction ps as [|[k0 q] ps IH]; simpl.
  - rewrite Hk. reflexivity.
  - destruct (array_index k0) as [n'|]; [destruct (n' <? n)%N|]; simpl;
      rewrite ?Hk, ?IH; reflexivity.
Qed.

Lemma own_prop_insert_eq k p ps :
  own_prop ps k = None -> own_prop (insert_new k p ps) k = Some p.
Proof.
  intros H. unfold insert_new. destruct (array_index k).
  - apply own_prop_insert_index_eq, H.
  - rewrite own_prop_app, H. simpl. rewrite String.eqb_refl. reflexivity.
Qed.

Lemma own_prop_insert_ne k k' p ps :
  k' <> k -> own_prop (insert_new k p ps) k' = own_prop ps k'.
Proof.
  intros Hne. unfold insert_new. destruct (array_index k).
  - apply own_prop_insert_index_ne, Hne.
  - rewrite own_prop_app. destruct (own_prop ps k'); [reflexivity|].
    simpl. rewrite eqb_neq_false by congruence. reflexivity.
Qed.

Lemma own_prop_in_keys ps k p : own_prop ps k = Some p -> In k (own_keys ps).
Proof.
  induction ps as [|[k' q] ps IH]; simpl; [discriminate|].
  destruct (String.eqb k' k) eqn:E.
  - apply String.eqb_eq in E. auto.
  - auto.
Qed.


Lemma props_evolve_refl ps : props_evolve ps ps.
Proof. intros k. destruct (own_prop ps k); auto. Qed.

Lemma props_evolve_trans ps1 ps2 ps3 :
  props_evolve ps1 ps2 -> props_evolve ps2 ps3 -> props_evolve ps1 ps3.
Proof.
  intros H12 H23 k. specialize (H12 k). specialize (H23 k).
  destruct (own_prop ps1 k), (own_prop ps2 k), (own_prop ps3 k);
    try tauto; intuition (subst; auto; congruence).
Qed.

(** ** What an accepted assignment does *)

Lemma set_prop_accepts h l k v :
  accepts h l k = true -> exists h', set_prop h l k v = Ok h'.
Proof.
  unfold accepts, set_prop.
  destruct (h !! l) as [o|]; [|discriminate].
  destruct (proto_chain h l) as [ch|]; [|discriminate].
  destruct (own_prop (props o) k) as [p|].
  - intros ->. eauto.
  - destruct (find_prop h (tail ch) k) as [[x p]|]; intros ->; eauto.
Qed.

Lemma set_prop_Ok_accepts h l k v h' :
  set_prop h l k v = Ok h' -> accepts h l k = true.
Proof.
  unfold accepts, set_prop.
  destruct (h !! l) as [o|]; [|discriminate].
  destruct (proto_chain h l) as [ch|]; [|discriminate].
  destruct (own_prop (props o) k) as [p|].
  - destruct (p_writable p); [reflexivity|discriminate].
  - destruct (find_prop h (tail ch) k) as [[x p]|].
    + destruct (p_writable p && extensible o); [reflexivity|discriminate].
    + destruct (extensible o); [reflexivity|discriminate].
Qed.

Lemma set_prop_refused h l k v :
  is_Some (h !! l) -> is_Some (proto_chain h l) -> accepts h l k = false ->
  set_prop h l k v = Throw TypeError.
Proof.
  intros [o Ho] [ch Hch]. unfold accepts, set_prop. rewrite Ho, Hch.
  destruct (own_prop (props o) k) as [p|].
  - intros ->. reflexivity.
  - destruct (find_prop h (tail ch) k) as [[x p]|]; intros ->; reflexivity.
Qed.

Lemma set_prop_written h l k v h' :
  set_prop h l k v = Ok h' -> written h l k v h'.
Proof.
  unfold set_prop, written.
  destruct (h !! l) as [o|] eqn:Hl; [|discriminate].
  destruct (proto_chain h l) as [ch|]; [|discriminate].
  destruct (own_prop (props o) k) as [p|] eqn:Hown.
  - destruct (p_writable p) eqn:Hw; [|discriminate]. intros [= <-].
    exists o, (update_value k v (props o)). repeat split.
    + intros k' Hne. apply own_prop_update_ne, Hne.
    + left. exists p. repeat split; auto.
      rewrite (own_prop_update_eq _ _ _ _ Hown), Hw. reflexivity.
  - assert (forall h0, (if extensible o then
        Ok (<[l := with_props o (insert_new k (Data v true true) (props o))]> h)
        else Throw TypeError) = Ok h0 ->
      exists o0 ps', Some o = Some o0 /\ h0 = <[l := with_props o0 ps']> h /\
        (forall k', k' <> k -> own_prop ps' k' = own_prop (props o0) k') /\
        ((exists p, own_prop (props o0) k = Some p /\ p_writable p = true /\
                    own_prop ps' k = Some (Data v true (p_enumerable p))) \/
         (own_prop (props o0) k = None /\ own_prop ps' k = Some (Data v true true))))
      as Hnew.
    { intros h0. destruct (extensible o); [|discriminate]. intros [= <-].
      exists o, (insert_new k (Data v true true) (props o)). repeat split.
      - intros k' Hne. apply own_prop_insert_ne, Hne.
      - right. split; [exact Hown|]. apply own_prop_insert_eq, Hown. }
    destruct (find_prop h (tail ch) k) as [[x p]|].
    + destruct (p_writable p); simpl; [apply Hnew|discriminate].
    + apply Hnew.
Qed.

Lemma written_own h l k v h' :
  written h l k v h' ->
  exists p, own_prop (props_at h' l) k = Some p /\ p_value p = v /\ p_writable p = true.
Proof.
  intros (o & ps' & Hl & -> & _ & Hk). unfold props_at.
  rewrite lookup_insert_eq. simpl.
  destruct Hk as [(p & _ & _ & ->)|[_ ->]]; eauto.
Qed.

Lemma written_own_other h l k v h' k' :
  written h l k v h' -> k' <> k ->
  own_prop (props_at h' l) k' = own_prop (props_at h l) k'.
Proof.
  intros (o & ps' & Hl & -> & Hne & _) Hk. unfold props_at.
  rewrite lookup_insert_eq, Hl. simpl. apply Hne, Hk.
Qed.

Lemma written_props_other h l k v h' x :
  written h l k v h' -> x <> l -> h' !! x = h !! x.
Proof.
  intros (o & ps' & Hl & -> & _) Hx. apply lookup_insert_ne. congruence.
Qed.

(** ** Heap evolution *)

Lemma evolves_refl W h : evolves W h h.
Proof.
  split; [reflexivity|]. intros l o Hl. exists o.
  repeat split; auto using props_evolve_refl.
Qed.

Lemma evolves_trans W h1 h2 h3 :
  evolves W h1 h2 -> evolves W h2 h3 -> evolves W h1 h3.
Proof.
  intros [D12 H12] [D23 H23]. split; [congruence|].
  intros l o Hl.
  destruct (H12 l o Hl) as (o2 & Hl2 & Hp & Hc & He & Hw & Hps).
  destruct (H23 l o2 Hl2) as (o3 & Hl3 & Hp' & Hc' & He' & Hw' & Hps').
  exists o3. repeat split; try congruence.
  - intros HW. rewrite (Hw' HW). apply Hw, HW.
  - eapply props_evolve_trans; eassumption.
Qed.

Lemma evolves_weaken (W W' : loc -> Prop) h h' :
  (forall l, W l -> W' l) -> evolves W h h' -> evolves W' h h'.
Proof.
  intros HW [D H]. split; [exact D|]. intros l o Hl.
  destruct (H l o Hl) as (o' & ? & ? & ? & ? & Hout & ?).
  exists o'. repeat split; auto.
Qed.

Lemma written_evolves (W : loc -> Prop) h l k v h' :
  written h l k v h' -> W l -> evolves W h h'.
Proof.
  intros (o & ps' & Hl & -> & Hne & Hk) HW. split.
  - apply dom_insert_lookup_L. rewrite Hl. eauto.
  - intros x ox Hx. destruct (decide (x = l)) as [->|Hxl].
    + rewrite lookup_insert_eq. assert (ox = o) as -> by congruence.
      exists (with_props o ps'). repeat split; auto; [tauto|].
      intros k'. simpl. destruct (String.eqb k' k) eqn:E.
      * apply String.eqb_eq in E. subst k'.
        destruct Hk as [(p & -> & Hw & ->)|[-> ->]]; auto.
      * apply String.eqb_neq in E. rewrite (Hne k' E).
        destruct (own_prop (props o) k'); auto.
    + rewrite lookup_insert_ne by congruence. exists ox.
      repeat split; auto using props_evolve_refl.
Qed.

Lemma evolves_lookup_None W h h' l : evolves W h h' -> h !! l = None -> h' !! l = None.
Proof.
  intros [D _] Hl. apply not_elem_of_dom. rewrite D. apply not_elem_of_dom, Hl.
Qed.

Lemma evolves_size W h h' : evolves W h h' -> size h' = size h.
Proof.
  intros [D _]. rewrite <- (size_dom h'), <- (size_dom h), D. reflexivity.
Qed.

Lemma evolves_proto_chain_from W h h' n l :
  evolves W h h' -> proto_chain_from n h' l = proto_chain_from n h l.
Proof.
  intros He. revert l. induction n as [|n IH]; intros l; simpl; [reflexivity|].
  destruct (h !! l) as [o|] eqn:Hl.
  - destruct He as [_ He]. destruct (He l o Hl) as (o' & -> & -> & _).
    destruct (proto o); [rewrite IH|]; reflexivity.
  - rewrite (evolves_lookup_None _ _ _ _ He Hl). reflexivity.
Qed.

Lemma evolves_proto_chain W h h' l :
  evolves W h h' -> proto_chain h' l = proto_chain h l.
Proof.
  intros He. unfold proto_chain. rewrite (evolves_size _ _ _ He).
  eapply evolves_proto_chain_from, He.
Qed.

Lemma evolves_props_at W h h' l : evolves W h h' -> ~ W l -> props_at h' l = props_at h l.
Proof.
  intros He HW. unfold props_at. destruct (h !! l) as [o|] eqn:Hl.
  - destruct He as [_ He]. destruct (He l o Hl) as (o' & -> & _ & _ & _ & Hout & _).
    rewrite (Hout HW). reflexivity.
  - rewrite (evolves_lookup_None _ _ _ _ He Hl). reflexivity.
Qed.

Lemma evolves_props_evolve W h h' l :
  evolves W h h' -> props_evolve (props_at h l) (props_at h' l).
Proof.
  intros He. unfold props_at. destruct (h !! l) as [o|] eqn:Hl.
  - destruct He as [_ He]. destruct (He l o Hl) as (o' & -> & _ & _ & _ & _ & Hps).
    exact Hps.
  - rewrite (evolves_lookup_None _ _ _ _ He Hl). apply props_evolve_refl.
Qed.

Lemma evolves_function_slots W h h' v :
  evolves W h h' -> function_slots_of h' v = function_slots_of h v.
Proof.
  intros He. destruct v as [| | | | |l]; simpl; auto.
  destruct (h !! l) as [o|] eqn:Hl.
  - destruct He as [_ He]. destruct (He l o Hl) as (o' & -> & _ & -> & _). reflexivity.
  - rewrite (evolves_lookup_None _ _ _ _ He Hl). reflexivity.
Qed.

Lemma evolves_typeof W h h' v : evolves W h h' -> typeof h' v = typeof h v.
Proof.
  intros He. destruct v; simpl; auto.
  change (match h' !! l with Some o => call o | None => None end)
    with (function_slots_of h' (VObject l)).
  rewrite (evolves_function_slots _ _ _ _ He). reflexivity.
Qed.

Lemma evolves_read_chain W h h' v : evolves W h h' -> read_chain h' v = read_chain h v.
Proof. intros He. destruct v; simpl; eauto using evolves_proto_chain. Qed.

Lemma evolves_reads_outside W h h' v :
  evolves W h h' -> reads_outside W h v -> reads_outside W h' v.
Proof.
  intros He (ch & Hch & Hout). exists ch.
  rewrite (evolves_read_chain _ _ _ _ He). auto.
Qed.

Lemma evolves_levels W h h' v :
  evolves W h h' -> reads_outside W h v -> levels h' v = levels h v.
Proof.
  intros He (ch & Hch & Hout).
  assert (map (props_at h') ch = map (props_at h) ch) as Hmap.
  { apply map_ext_in. intros x Hx. eapply evolves_props_at; eauto. }
  destruct v; simpl in *; auto;
    rewrite (evolves_proto_chain _ _ _ _ He), Hch; simpl; rewrite Hmap; reflexivity.
Qed.

Lemma evolves_get_v W h h' v k :
  evolves W h h' -> reads_outside W h v -> get_v h' v k = get_v h v k.
Proof. intros He Hr. unfold get_v. rewrite (evolves_levels _ _ _ _ He Hr). reflexivity. Qed.

Lemma evolves_for_in_keys W h h' v :
  evolves W h h' -> reads_outside W h v -> for_in_keys h' v = for_in_keys h v.
Proof.
  intros He Hr. unfold for_in_keys. rewrite (evolves_levels _ _ _ _ He Hr). reflexivity.
Qed.

Lemma evolves_find_prop W h h' ch k :
  evolves W h h' ->
  match find_prop h ch k, find_prop h' ch k with
  | Some (_, p), Some (_, p') => p_writable p = true -> p_writable p' = true
  | None, Some (_, p') => p_writable p' = true
  | Some _, None => False
  | None, None => True
  end.
Proof.
  intros He. induction ch as [|l ch IH]; simpl; [exact I|].
  pose proof (evolves_props_evolve _ _ _ l He k) as Hk.
  destruct (own_prop (props_at h l) k) as [p|], (own_prop (props_at h' l) k) as [p'|];
    try tauto.
  - destruct Hk as [->|[_ Hw]]; auto.
  - destruct (find_prop h ch k) as [[x q]|]; auto.
Qed.

Lemma evolves_accepts W h h' l k :
  evolves W h h' -> accepts h l k = true -> accepts h' l k = true.
Proof.
  intros He. unfold accepts. rewrite (evolves_proto_chain _ _ _ _ He).
  destruct (h !! l) as [o|] eqn:Hl; [|discriminate].
  pose proof (evolves_props_evolve _ _ _ l He k) as Hk. unfold props_at in Hk.
  destruct He as [D He']. destruct (He' l o Hl) as (o' & Hl' & _ & _ & Hext & _ & _).
  rewrite Hl, Hl' in Hk. rewrite Hl'.
  destruct (proto_chain h l) as [ch|]; [|discriminate].
  pose proof (evolves_find_prop W h h' (tail ch) k (conj D He')) as Hf.
  rewrite Hext.
  destruct (own_prop (props o) k) as [p|], (own_prop (props o') k) as [p'|];
    try tauto.
  - destruct Hk as [->|[_ Hw]]; auto.
  - destruct (find_prop h (tail ch) k) as [[x q]|],
             (find_prop h' (tail ch) k) as [[x' q']|]; try tauto.
    + intros [Hq ->]%andb_prop. rewrite (Hf Hq). reflexivity.
    + intros ->. rewrite Hf. reflexivity.
Qed.

(** ** Loops *)

(** An invariant that every step keeps holds after the loop. *)
Lemma for_each_invariant {A} (I : heap -> Prop) (xs : list A)
    (step : A -> heap -> result heap) h h' :
  (forall x h0 h1, In x xs -> I h0 -> step x h0 = Ok h1 -> I h1) ->
  I h -> for_each xs step h = Ok h' -> I h'.
Proof.
  revert h. induction xs as [|x xs IH]; simpl; intros h Hstep HI.
  - intros [= <-]. exact HI.
  - destruct (step x h) as [h1| |] eqn:E; simpl; try discriminate.
    apply IH; eauto.
Qed.

(** A loop each step of which completes under the invariant completes. *)
Lemma for_each_completes {A} (I : heap -> Prop) (xs : list A)
    (step : A -> heap -> result heap) h :
  (forall x h0, In x xs -> I h0 -> exists h1, step x h0 = Ok h1 /\ I h1) ->
  I h -> exists h', for_each xs step h = Ok h' /\ I h'.
Proof.
  revert h. induction xs as [|x xs IH]; simpl; intros h Hstep HI.
  - eauto.
  - destruct (Hstep x h) as (h1 & -> & HI1); auto. simpl.
    apply IH; eauto.
Qed.

Lemma for_each_establishes {A} (I Q : heap -> Prop) (xs : list A)
    (step : A -> heap -> result heap) h h' x :
  In x xs ->
  (forall y h0 h1, In y xs -> I h0 -> step y h0 = Ok h1 -> I h1) ->
  (forall h0 h1, I h0 -> step x h0 = Ok h1 -> Q h1) ->
  (forall y h0 h1, In y xs -> I h0 -> Q h0 -> step y h0 = Ok h1 -> Q h1) ->
  I h -> for_each xs step h = Ok h' -> Q h'.
Proof.
  intros Hx HI Hest Hkeep. revert h Hx.
  induction xs as [|y xs IH]; intros h Hx Hh; [destruct Hx|].
  simpl. destruct (step y h) as [h1| |] eqn:E; simpl; try discriminate.
  intros Hloop.
  assert (I h1) as HI1 by (apply (HI y h h1); [left; reflexivity|exact Hh|exact E]).
  destruct Hx as [->|Hx].
  - assert (Q h1) as HQ1 by (apply (Hest h h1); assumption).
    apply (for_each_invariant (fun h0 => I h0 /\ Q h0) xs step h1 h');
      [|split; assumption|exact Hloop].
    intros z h0 h2 Hz [HI0 HQ0] Hs. split.
    + apply (HI z h0 h2); [right; exact Hz|exact HI0|exact Hs].
    + apply (Hkeep z h0 h2); [right; exact Hz|exact HI0|exact HQ0|exact Hs].
  - apply (IH (fun z h0 h2 Hz => HI z h0 h2 (or_intror Hz))
              (fun z h0 h2 Hz => Hkeep z h0 h2 (or_intror Hz)) h1 Hx HI1 Hloop).
Qed.

(** ** Reading *)

Lemma proto_chain_from_head n h l ch :
  proto_chain_from n h l = Some ch -> exists t, ch = l :: t.
Proof.
  destruct n as [|n]; simpl; [discriminate|].
  destruct (h !! l) as [o|]; [|discriminate].
  destruct (proto o) as [p|].
  - destruct (proto_chain_from n h p); [|discriminate]. intros [= <-]. eauto.
  - intros [= <-]. eauto.
Qed.

Lemma proto_chain_head h l ch : proto_chain h l = Some ch -> exists t, ch = l :: t.
Proof. apply proto_chain_from_head. Qed.

Lemma own_get_v h l k p :
  is_Some (proto_chain h l) -> own_prop (props_at h l) k = Some p ->
  get_v h (VObject l) k = Ok (p_value p).
Proof.
  intros [ch Hch] Hown. unfold get_v. simpl. rewrite Hch. simpl.
  destruct (proto_chain_head _ _ _ Hch) as [t ->]. simpl. rewrite Hown. reflexivity.
Qed.

Lemma set_prop_chain h l k v h' : set_prop h l k v = Ok h' -> is_Some (proto_chain h l).
Proof.
  unfold set_prop. destruct (h !! l); [|discriminate].
  destruct (proto_chain h l); [eauto|discriminate].
Qed.

Lemma set_prop_evolves (W : loc -> Prop) h l k v h' :
  set_prop h l k v = Ok h' -> W l -> evolves W h h'.
Proof. intros Hs. apply written_evolves with k v, set_prop_written, Hs. Qed.


(** ** [Object.assign] *)

Lemma written_source_stable h f k h' from p :
  written h f k (p_value p) h' ->
  own_prop (own_props_of h from) k = Some p ->
  forall k', own_prop (own_props_of h' from) k' = own_prop (own_props_of h from) k'.
Proof.
  intros Hw Hp k'. destruct from as [| | | | |c]; try reflexivity. simpl in *.
  destruct (decide (c = f)) as [->|Hc].
  - destruct (String.eqb k' k) eqn:E.
    + apply String.eqb_eq in E. subst k'.
      destruct Hw as (o & ps' & Hl & -> & _ & Hk). unfold props_at in *.
      rewrite lookup_insert_eq. rewrite Hl in *. simpl.
      destruct Hk as [(q & Hq & Hqw & ->)|[Hnone _]]; [|congruence].
      assert (q = p) as -> by congruence. destruct p as [v w e]. simpl in *.
      subst w. exact (eq_sym Hp).
    + apply String.eqb_neq in E. eapply written_own_other; eauto.
  - unfold props_at. rewrite (written_props_other _ _ _ _ _ c Hw Hc). reflexivity.
Qed.

Lemma assign_key_inv from f h1 k h h' :
  assign_inv from f h1 h -> assign_key from f k h = Ok h' -> assign_inv from f h1 h'.
Proof.
  intros [He Hsrc]. unfold assign_key.
  destruct (own_prop (own_props_of h from) k) as [p|] eqn:Hp.
  - destruct (p_enumerable p).
    + intros Hs. pose proof (set_prop_written _ _ _ _ _ Hs) as Hw. split.
      * eapply evolves_trans; [exact He|]. eapply written_evolves; eauto.
      * intros k'. rewrite (written_source_stable _ _ _ _ _ _ Hw Hp). apply Hsrc.
    + intros [= <-]. split; assumption.
  - intros [= <-]. split; assumption.
Qed.

Lemma Object_assign_object h f source :
  Object_assign h (VObject f) source =
  let* h2 := for_each (own_keys (own_props_of h source)) (assign_key source f) h in
  Ok (VObject f, h2).
Proof. reflexivity. Qed.

(** A completed copy returns the target itself and leaves every own
    enumerable property of the source on it. *)
Lemma Object_assign_result h f source r h' :
  Object_assign h (VObject f) source = Ok (r, h') ->
  r = VObject f /\ assign_inv source f h h' /\
  forall k p, own_prop (own_props_of h source) k = Some p -> p_enumerable p = true ->
    get_v h' (VObject f) k = Ok (p_value p) /\ accepts h' f k = true.
Proof.
  rewrite Object_assign_object.
  destruct (for_each _ _ h) as [h2| |] eqn:Hloop; simpl; try discriminate.
  intros [= <- <-]. split; [reflexivity|].
  assert (assign_inv source f h h) as H0.
  { split; [apply evolves_refl|reflexivity]. }
  split.
  - revert Hloop. apply for_each_invariant; [|exact H0].
    intros x h0 h1 _. apply assign_key_inv.
  - intros k p Hp Hen.
    set (Q := fun h0 : heap => is_Some (proto_chain h0 f) /\
      exists d, own_prop (props_at h0 f) k = Some d /\ p_value d = p_value p
                /\ p_writable d = true).
    assert (Q h2) as (Hch & d & Hd & Hv & Hw).
    { revert Hloop.
      apply (for_each_establishes (assign_inv source f h) Q) with (x := k).
      - eapply own_prop_in_keys, Hp.
      - intros y h0 h1 _. apply assign_key_inv.
      - intros h0 h1 [_ Hsrc]. unfold assign_key. rewrite Hsrc, Hp, Hen.
        intros Hs. pose proof (set_prop_written _ _ _ _ _ Hs) as Hw. split.
        + rewrite (evolves_proto_chain (eq f) h0 h1).
          * eapply set_prop_chain, Hs.
          * eapply written_evolves; eauto.
        + destruct (written_own _ _ _ _ _ Hw) as (d & ? & ? & ?). eauto.
      - intros y h0 h1 _ [_ Hsrc] (Hch & d & Hd & Hv & Hwd). unfold assign_key.
        rewrite Hsrc.
        destruct (own_prop (own_props_of h source) y) as [q|] eqn:Hq;
          [destruct (p_enumerable q)|]; try (intros [= <-]; split; eauto).
        intros Hs. pose proof (set_prop_written _ _ _ _ _ Hs) as Hw. split.
        + rewrite (evolves_proto_chain (eq f) h0 h1); [exact Hch|].
          eapply written_evolves; eauto.
        + destruct (String.eqb y k) eqn:E.
          * apply String.eqb_eq in E. subst y. assert (q = p) as -> by congruence.
            destruct (written_own _ _ _ _ _ Hw) as (d' & ? & ? & ?). eauto.
          * apply String.eqb_neq in E.
            rewrite (written_own_other _ _ _ _ _ k Hw) by congruence.
            exists d. auto.
      - exact H0. }
    split.
    + rewrite <- Hv. apply own_get_v; assumption.
    + unfold accepts. destruct Hch as [ch Hch]. rewrite Hch.
      unfold props_at in Hd. destruct (h2 !! f) as [o|]; [|discriminate].
      rewrite Hd. exact Hw.
Qed.

(** The copy completes when every own enumerable key of the source is
    accepted on the target. *)
Lemma Object_assign_completes h f source :
  (forall k p, own_prop (own_props_of h source) k = Some p -> p_enumerable p = true ->
     accepts h f k = true) ->
  exists h', Object_assign h (VObject f) source = Ok (VObject f, h').
Proof.
  intros Hacc. rewrite Object_assign_object.
  destruct (for_each_completes (assign_inv source f h)
              (own_keys (own_props_of h source)) (assign_key source f) h)
    as (h' & -> & _).
  - intros k h0 _ [He Hsrc].
    assert (exists h1, assign_key source f k h0 = Ok h1) as [h1 Hh1].
    { unfold assign_key. rewrite Hsrc.
      destruct (own_prop (own_props_of h source) k) as [p|] eqn:Hp; [|eauto].
      destruct (p_enumerable p) eqn:Hen; [|eauto].
      apply set_prop_accepts. eapply evolves_accepts; eauto. }
    exists h1. split; [exact Hh1|]. eapply assign_key_inv; eauto. split; assumption.
  - split; [apply evolves_refl|reflexivity].
  - simpl. eauto.
Qed.

(** ** The two branches of [withErrors] *)

Section Branches.

Variable user_call : nat -> heap -> value -> list value -> result (value * heap).

Lemma withErrors_function_branch h target config h1 :
  classified user_call h target false h1 ->
  withErrors user_call h target config = Object_assign h1 target config.
Proof.
  intros (c & Hc & Hb). unfold withErrors. rewrite Hc. simpl. rewrite Hb. reflexivity.
Qed.

Lemma withErrors_class_branch h target config h1 :
  classified user_call h target true h1 ->
  withErrors user_call h target config =
  let* methodNames := for_in_keys h1 config in
  let* h2 := for_each methodNames (annotate_method target config) h1 in
  Ok (target, h2).
Proof.
  intros (c & Hc & Hb). unfold withErrors. rewrite Hc. simpl. rewrite Hb. reflexivity.
Qed.

Lemma typeof_function_object h v :
  typeof h v = "function" -> exists l, v = VObject l /\ is_function h l.
Proof.
  destruct v as [| | | | |l]; simpl; try discriminate.
  intros H. exists l. split; [reflexivity|]. unfold is_function. simpl.
  destruct (h !! l) as [o|]; [|discriminate].
  destruct (call o); [discriminate|discriminate].
Qed.

Lemma classified_cases h target config r h' :
  withErrors user_call h target config = Ok (r, h') ->
  exists b h1, classified user_call h target b h1.
Proof.
  unfold withErrors, classified.
  destruct (isClass user_call h target) as [[c h1]| |]; simpl; try discriminate.
  intros _. exists (to_boolean c), h1, c. auto.
Qed.

End Branches.

(** ** Reading a value that can be read *)

Lemma reads_outside_weaken (W W' : loc -> Prop) h v :
  (forall l, W l -> W' l) -> reads_outside W' h v -> reads_outside W h v.
Proof. intros HW (ch & Hch & Hout). exists ch. split; [exact Hch|]. firstorder. Qed.

Lemma reads_outside_levels W h v :
  reads_outside W h v ->
  exists lv, levels h v = Ok lv /\ (lv = None -> v = VUndefined \/ v = VNull).
Proof.
  intros (ch & Hch & _). destruct v; simpl in *; try rewrite Hch; simpl;
    eexists; (split; [reflexivity|]); auto; discriminate.
Qed.

Lemma reads_outside_for_in W h v :
  reads_outside W h v -> exists ks, for_in_keys h v = Ok ks.
Proof.
  intros Hr. destruct (reads_outside_levels _ _ _ Hr) as (lv & Hlv & _).
  unfold for_in_keys. rewrite Hlv. simpl. destruct lv; eauto.
Qed.

Lemma reads_outside_get_v W h v k :
  reads_outside W h v -> v <> VUndefined -> v <> VNull ->
  exists x, get_v h v k = Ok x.
Proof.
  intros Hr H1 H2. destruct (reads_outside_levels _ _ _ Hr) as (lv & Hlv & Hnone).
  unfold get_v. rewrite Hlv. simpl. destruct lv as [lv|].
  - destruct (find_level lv k); eauto.
  - destruct Hnone; [reflexivity| |]; contradiction.
Qed.

Lemma for_in_keys_nonempty h v ks m :
  for_in_keys h v = Ok ks -> In m ks -> v <> VUndefined /\ v <> VNull.
Proof.
  intros Hks Hm. split; intros ->; simpl in Hks; injection Hks as <-; destruct Hm.
Qed.

(** ** The class branch *)

Lemma readonly_prototype_evolves W h h' c P :
  evolves W h h' -> has_readonly_prototype h c P -> has_readonly_prototype h' c P.
Proof.
  intros He (Hch & p & Hp & Hw & Hv). split.
  - rewrite (evolves_proto_chain _ _ _ _ He). exact Hch.
  - pose proof (evolves_props_evolve _ _ _ c He "prototype") as Hk.
    rewrite Hp in Hk. destruct (own_prop (props_at h' c) "prototype") as [p'|]; [|tauto].
    exists p'. destruct Hk as [->|[Hw' _]]; [auto|congruence].
Qed.

Lemma readonly_prototype_get h c P :
  has_readonly_prototype h c P -> get_v h (VObject c) "prototype" = Ok P.
Proof. intros (Hch & p & Hp & _ & <-). apply own_get_v; assumption. Qed.

Section ClassBranch.

(** The situation of a call on a class: the constructor [c] with its
    prototype object [p], a configuration whose keys are [methodNames],
    and a set [W] of objects that holds every function that a key of
    the configuration names in the method table.  Reading the method
    table, the configuration and its values looks at no object of [W]. *)
Variable W : loc -> Prop.
Variable h1 : heap.
Variables c p : loc.
Variable errorConfig : value.
Variable methodNames : list string.

Hypothesis Hprototype : has_readonly_prototype h1 c (VObject p).
Hypothesis Hkeys : for_in_keys h1 errorConfig = Ok methodNames.
Hypothesis Htable : reads_outside W h1 (VObject p).
Hypothesis Hconfig : reads_outside W h1 errorConfig.
Hypothesis Herrors : forall m errors,
  In m methodNames -> get_v h1 errorConfig m = Ok errors -> reads_outside W h1 errors.
Hypothesis Hmethods : forall m f,
  In m methodNames -> get_v h1 (VObject p) m = Ok (VObject f) -> is_function h1 f -> W f.

Lemma annotate_slot_evolves m f errors e h h' :
  In m methodNames ->
  get_v h1 (VObject p) m = Ok (VObject f) -> is_function h1 f ->
  get_v h1 errorConfig m = Ok errors ->
  evolves W h1 h ->
  annotate_slot (VObject c) m errors e h = Ok h' ->
  evolves W h1 h' /\ exists v, get_v h1 errors e = Ok v /\ set_prop h f e v = Ok h'.
Proof.
  intros Hm Hf Hfun Herr He. unfold annotate_slot.
  rewrite (readonly_prototype_get h c (VObject p))
    by (eapply readonly_prototype_evolves; eauto).
  simpl. rewrite (evolves_get_v _ _ _ _ _ He Htable), Hf. simpl.
  rewrite (evolves_get_v _ _ _ _ _ He (Herrors _ _ Hm Herr)).
  destruct (get_v h1 errors e) as [v| |]; simpl; try discriminate.
  intros Hs. split; [|eauto].
  eapply evolves_trans; [exact He|]. eapply set_prop_evolves; eauto.
Qed.

Lemma annotate_method_evolves m h h' :
  In m methodNames -> evolves W h1 h ->
  annotate_method (VObject c) errorConfig m h = Ok h' -> evolves W h1 h'.
Proof.
  intros Hm He. unfold annotate_method.
  rewrite (readonly_prototype_get h c (VObject p))
    by (eapply readonly_prototype_evolves; eauto).
  simpl. rewrite (evolves_get_v _ _ _ _ _ He Htable).
  destruct (get_v h1 (VObject p) m) as [method| |] eqn:Hmeth; simpl; try discriminate.
  rewrite (evolves_typeof _ _ _ _ He).
  destruct (String.eqb (typeof h1 method) "function") eqn:Hty;
    [|intros [= <-]; exact He].
  apply String.eqb_eq, typeof_function_object in Hty. destruct Hty as (f & -> & Hfun).
  rewrite (evolves_get_v _ _ _ _ _ He Hconfig).
  destruct (get_v h1 errorConfig m) as [errors| |] eqn:Herr; simpl; try discriminate.
  rewrite (evolves_for_in_keys _ _ _ _ He (Herrors _ _ Hm Herr)).
  destruct (for_in_keys h1 errors) as [names| |]; simpl; try discriminate.
  apply for_each_invariant; [|exact He].
  intros e h0 h2 _ He0 Hs.
  eapply annotate_slot_evolves in Hs; eauto. tauto.
Qed.

(** A completed class branch changes only function objects of [W], and
    of them only properties. *)
Lemma class_branch_evolves h' :
  for_each methodNames (annotate_method (VObject c) errorConfig) h1 = Ok h' ->
  evolves W h1 h'.
Proof.
  apply for_each_invariant; [|apply evolves_refl].
  intros m h0 h2 Hm He. apply annotate_method_evolves; assumption.
Qed.

(** The class branch completes when every slot is accepted on the
    function it goes to. *)
Hypothesis Haccepted : forall m f errors names e,
  In m methodNames -> get_v h1 (VObject p) m = Ok (VObject f) -> is_function h1 f ->
  get_v h1 errorConfig m = Ok errors -> for_in_keys h1 errors = Ok names ->
  In e names -> accepts h1 f e = true.

Lemma annotate_method_completes m h :
  In m methodNames -> evolves W h1 h ->
  exists h', annotate_method (VObject c) errorConfig m h = Ok h' /\ evolves W h1 h'.
Proof.
  intros Hm He.
  assert (exists h', annotate_method (VObject c) errorConfig m h = Ok h') as [h' Hh'];
    [|exists h'; split; [exact Hh'|eapply annotate_method_evolves; eauto]].
  unfold annotate_method.
  rewrite (readonly_prototype_get h c (VObject p))
    by (eapply readonly_prototype_evolves; eauto).
  simpl. rewrite (evolves_get_v _ _ _ _ _ He Htable).
  destruct (reads_outside_get_v _ _ _ m Htable) as [method Hmeth]; try discriminate.
  rewrite Hmeth. simpl. rewrite (evolves_typeof _ _ _ _ He).
  destruct (String.eqb (typeof h1 method) "function") eqn:Hty; [|eauto].
  apply String.eqb_eq, typeof_function_object in Hty. destruct Hty as (f & -> & Hfun).
  rewrite (evolves_get_v _ _ _ _ _ He Hconfig).
  destruct (for_in_keys_nonempty _ _ _ _ Hkeys Hm) as [Hc1 Hc2].
  destruct (reads_outside_get_v _ _ _ m Hconfig Hc1 Hc2) as [errors Herr].
  rewrite Herr. simpl.
  pose proof (Herrors _ _ Hm Herr) as Hre.
  rewrite (evolves_for_in_keys _ _ _ _ He Hre).
  destruct (reads_outside_for_in _ _ _ Hre) as [names Hnames]. rewrite Hnames. simpl.
  destruct (for_each_completes (evolves W h1) names
              (annotate_slot (VObject c) m errors) h) as (h' & Hh' & _); [|exact He|eauto].
  intros e h0 He_in He0.
  assert (exists h2, annotate_slot (VObject c) m errors e h0 = Ok h2) as [h2 Hh2].
  { unfold annotate_slot.
    rewrite (readonly_prototype_get h0 c (VObject p))
      by (eapply readonly_prototype_evolves; eauto).
    simpl. rewrite (evolves_get_v _ _ _ _ _ He0 Htable), Hmeth. simpl.
    rewrite (evolves_get_v _ _ _ _ _ He0 Hre).
    destruct (for_in_keys_nonempty _ _ _ _ Hnames He_in) as [He1 He2].
    destruct (reads_outside_get_v _ _ _ e Hre He1 He2) as [v ->]. simpl.
    apply set_prop_accepts. eapply evolves_accepts; eauto. }
  exists h2. split; [exact Hh2|].
  eapply annotate_slot_evolves in Hh2; eauto. tauto.
Qed.

Lemma class_branch_completes :
  exists h', for_each methodNames (annotate_method (VObject c) errorConfig) h1 = Ok h'.
Proof.
  destruct (for_each_completes (evolves W h1) methodNames
              (annotate_method (VObject c) errorConfig) h1) as (h' & Hh' & _);
    [|apply evolves_refl|eauto].
  intros m h0 Hm He. apply annotate_method_completes; assumption.
Qed.

End ClassBranch.

(** ** Allocation *)

Lemma proto_chain_from_in_heap n h l ch :
  proto_chain_from n h l = Some ch -> forall x, In x ch -> is_Some (h !! x).
Proof.
  revert l ch. induction n as [|n IH]; intros l ch; simpl; [discriminate|].
  destruct (h !! l) as [o|] eqn:Hl; [|discriminate].
  destruct (proto o) as [q|].
  - destruct (proto_chain_from n h q) as [t|] eqn:Ht; [|discriminate].
    intros [= <-] x [<-|Hx]; [rewrite Hl; eauto|]. eapply IH; eauto.
  - intros [= <-] x [<-|[]]. rewrite Hl. eauto.
Qed.

Lemma proto_chain_from_mono n n' (h h' : heap) l ch :
  proto_chain_from n h l = Some ch -> n <= n' -> h ⊆ h' ->
  proto_chain_from n' h' l = Some ch.
Proof.
  intros Hch Hn Hsub. revert n' l ch Hch Hn.
  induction n as [|n IH]; intros n' l ch; simpl; [discriminate|].
  destruct (h !! l) as [o|] eqn:Hl; [|discriminate].
  intros Hch Hn. destruct n' as [|n']; [lia|]. simpl.
  rewrite (lookup_weaken _ _ _ _ Hl Hsub).
  destruct (proto o) as [q|]; [|exact Hch].
  destruct (proto_chain_from n h q) as [t|] eqn:Ht; [|discriminate].
  rewrite (IH n' q t Ht) by lia. exact Hch.
Qed.

Lemma alloc_proto_chain (h : heap) i o l ch :
  h !! i = None -> proto_chain h l = Some ch -> proto_chain (<[i:=o]> h) l = Some ch.
Proof.
  intros Hi Hch. unfold proto_chain in *.
  eapply proto_chain_from_mono; [exact Hch| |apply insert_subseteq, Hi].
  rewrite map_size_insert_None by exact Hi. lia.
Qed.

Lemma alloc_props_at (h : heap) i o x :
  h !! i = None -> is_Some (h !! x) -> props_at (<[i:=o]> h) x = props_at h x.
Proof.
  intros Hi [ox Hx]. unfold props_at. rewrite lookup_insert_ne; [reflexivity|].
  intros ->. congruence.
Qed.

Lemma alloc_map_props_at (h : heap) i o n l ch :
  h !! i = None -> proto_chain_from n h l = Some ch ->
  map (props_at (<[i:=o]> h)) ch = map (props_at h) ch.
Proof.
  intros Hi Hch. apply map_ext_in. intros x Hx. apply alloc_props_at; [exact Hi|].
  eapply proto_chain_from_in_heap; eauto.
Qed.

Lemma alloc_levels (h : heap) i o v lv :
  h !! i = None -> levels h v = Ok lv -> levels (<[i:=o]> h) v = Ok lv.
Proof.
  intros Hi. destruct v as [| | | | |l]; simpl; auto;
    match goal with
    | |- context [proto_chain h ?x] =>
        destruct (proto_chain h x) as [ch|] eqn:Hch; simpl; [|discriminate];
        rewrite (alloc_proto_chain _ _ o _ _ Hi Hch); simpl;
        rewrite (alloc_map_props_at _ _ o _ _ _ Hi Hch); auto
    end.
Qed.

(** Objects created later do not change what the older ones show. *)
Lemma alloc_get_v (h : heap) i o v k x :
  h !! i = None -> get_v h v k = Ok x -> get_v (<[i:=o]> h) v k = Ok x.
Proof.
  intros Hi. unfold get_v.
  destruct (levels h v) as [lv| |] eqn:Hlv; simpl; try discriminate.
  rewrite (alloc_levels _ _ o _ _ Hi Hlv). auto.
Qed.


(** ** Classification with the built-in string form *)

Lemma is_function_typeof h f : is_function h f -> typeof h (VObject f) = "function".
Proof.
  unfold is_function. simpl. destruct (h !! f) as [o|]; [|tauto].
  destruct (call o); [reflexivity|tauto].
Qed.

#[local] Arguments typeof : simpl never.

Section Classification.

Variable user_call : nat -> heap -> value -> list value -> result (value * heap).

Lemma isClass_not_function h v :
  typeof h v <> "function" -> isClass user_call h v = Ok (VBool false, h).
Proof.
  intros Hty. unfold isClass. rewrite eqb_neq_false by exact Hty. reflexivity.
Qed.

(** With the built-in string form, the discriminator answers whether the
    source text of the function starts with ["class "], and changes
    nothing. *)
Lemma isClass_builtin h v fs :
  function_slots_of h v = Some fs -> builtin_string_form h v ->
  isClass user_call h v = Ok (VBool (String.prefix "class " (source_text fs)), h).
Proof.
  intros Hfs (fs' & ts & sw & Hfs' & Hts & (tfs & Htfs & Htc & Htb)
               & Hsw & sfs & Hsfs & Hsc & Hsb).
  assert (fs' = fs) as -> by congruence. unfold isClass.
  assert (typeof h v = "function") as ->.
  { unfold typeof. destruct v; simpl in *; try discriminate. rewrite Hfs. reflexivity. }
  simpl. rewrite Hts. simpl. unfold call_function at 1. rewrite Htfs, Htc, Htb, Hfs.
  simpl. rewrite Hsw. simpl. unfold call_function. rewrite Hsfs, Hsc, Hsb. reflexivity.
Qed.

Lemma classified_builtin h v fs :
  function_slots_of h v = Some fs -> builtin_string_form h v ->
  classified user_call h v (String.prefix "class " (source_text fs)) h.
Proof.
  intros Hfs Hb. eexists. split; [apply isClass_builtin; eassumption|reflexivity].
Qed.

(** A configuration that names one method and gives it one slot, as in
    [{ m: { k: Ctor } }]. *)
Lemma withErrors_single_slot h h1 C P f config m errors k Ctor :
  classified user_call h C true h1 ->
  get_v h1 C "prototype" = Ok P ->
  get_v h1 P m = Ok (VObject f) -> is_function h1 f ->
  for_in_keys h1 config = Ok [m] -> get_v h1 config m = Ok errors ->
  for_in_keys h1 errors = Ok [k] -> get_v h1 errors k = Ok Ctor ->
  withErrors user_call h C config =
  let* h' := set_prop h1 f k Ctor in Ok (C, h').
Proof.
  intros Hc HP Hf Hfun Hks Herr Hnames HCtor.
  rewrite (withErrors_class_branch _ _ _ _ _ Hc), Hks. simpl.
  unfold annotate_method. rewrite HP. simpl. rewrite Hf. simpl.
  rewrite (is_function_typeof _ _ Hfun).
  simpl. rewrite Herr. simpl. rewrite Hnames. simpl.
  unfold annotate_slot. rewrite HP. simpl. rewrite Hf. simpl. rewrite HCtor. simpl.
  destruct (set_prop h1 f k Ctor); reflexivity.
Qed.

End Classification.




(** ** What the two enumerations visit *)






(** ** Completion *)

Section Completion.

Variable user_call : nat -> heap -> value -> list value -> result (value * heap).

Lemma withErrors_accepted h h1 f config b :
  classified user_call h (VObject f) b h1 ->
  call_accepted h1 f config b ->
  exists h', withErrors user_call h (VObject f) config = Ok (VObject f, h').
Proof.
  intros Hc Hacc. destruct b.
  - rewrite (withErrors_class_branch _ _ _ _ _ Hc).
    destruct Hacc as [->|[->|Hacc]]; [simpl; eauto..|].
    destruct Hacc as (p & ks & HP & Hks & Hrp & Hrc & Hre & Ha). rewrite Hks. simpl.
    destruct (class_branch_completes (is_function h1) h1 f p config ks) as [h' ->];
      auto.
    simpl. eauto.
  - rewrite (withErrors_function_branch _ _ _ _ _ Hc).
    apply Object_assign_completes.
    destruct Hacc as [->|[->|Hacc]]; [intros k p; discriminate..|exact Hacc].
Qed.

End Completion.

(** * The claims *)

Section Claims.

Variable user_call : nat -> heap -> value -> list value -> result (value * heap).

(** C2.  A call of [withErrors] on a function value [X] returns [X]
    itself, the same reference, no copy and no subclass, in the
    function branch as in the class branch: whatever the call returns
    is [X], and it does return when every assignment that it makes is
    accepted. *)
Theorem withErrors_returns_target h X config :
  typeof h X = "function" ->
  (forall r h', withErrors user_call h X config = Ok (r, h') -> r = X) /\
  (forall f b h1, X = VObject f ->
     classified user_call h X b h1 -> call_accepted h1 f config b ->
     exists h', withErrors user_call h X config = Ok (X, h')).
Proof.
  intros Hty. split.
  - intros r h' Hrun.
    destruct (typeof_function_object _ _ Hty) as (f & -> & _).
    destruct (classified_cases _ _ _ _ _ _ Hrun) as ([|] & h1 & Hc).
    + rewrite (withErrors_class_branch _ _ _ _ _ Hc) in Hrun.
      destruct (for_in_keys h1 config) as [ks| |]; simpl in Hrun; try discriminate.
      destruct (for_each ks _ h1); simpl in Hrun; congruence.
    + rewrite (withErrors_function_branch _ _ _ _ _ Hc) in Hrun.
      apply Object_assign_result in Hrun. tauto.
  - intros f b h1 -> Hc Hacc. eapply withErrors_accepted; eauto.
Qed.

(** C3.  As amended: on a function [fn] that the discriminator sends
    to the function branch, [withErrors(fn, ErrorConfig)] completes when
    each own enumerable key of [ErrorConfig] is accepted on [fn], and
    after a completed call every such key [name] reads the same on
    both: [fn[name] === ErrorConfig[name]], a writable property that
    [fn] held at [name] being overwritten.  A property that is not
    accepted, such as the read-only [name] and [length] of a function,
    is not overwritten: the call throws a [TypeError] at the first such
    key. *)
Theorem withErrors_function_slots h h1 f ErrorConfig :
  typeof h (VObject f) = "function" ->
  classified user_call h (VObject f) false h1 ->
  (function_call_accepted h1 f ErrorConfig ->
   exists h', withErrors user_call h (VObject f) ErrorConfig = Ok (VObject f, h')) /\
  (forall r h', withErrors user_call h (VObject f) ErrorConfig = Ok (r, h') ->
   forall name p,
     own_prop (own_props_of h1 ErrorConfig) name = Some p -> p_enumerable p = true ->
     get_v h' (VObject f) name = Ok (p_value p) /\
     own_prop (own_props_of h' ErrorConfig) name = Some p) /\
  (forall name p rest,
     own_props_of h1 ErrorConfig = (name, p) :: rest -> p_enumerable p = true ->
     is_Some (proto_chain h1 f) -> accepts h1 f name = false ->
     withErrors user_call h (VObject f) ErrorConfig = Throw TypeError).
Proof.
  intros Hty Hc. rewrite (withErrors_function_branch _ _ _ _ _ Hc). split; [|split].
  - apply Object_assign_completes.
  - intros r h' Hrun name p Hp Hen.
    apply Object_assign_result in Hrun. destruct Hrun as (_ & [_ Hsrc] & Hslots).
    split.
    + apply (Hslots name p Hp Hen).
    + rewrite Hsrc. exact Hp.
  - intros name p rest Hown Hen Hch Hacc. rewrite Object_assign_object, Hown. simpl.
    unfold assign_key. rewrite Hown. simpl. rewrite String.eqb_refl, Hen.
    rewrite set_prop_refused; auto.
    destruct Hch as [ch Hch]. unfold proto_chain in Hch.
    destruct (size h1); simpl in Hch; [discriminate|].
    destruct (h1 !! f); [eauto|discriminate].
Qed.




(** C8.  The class branch preserves the frame.  After a completed call
    on a class [C] no object has appeared or gone, every object keeps
    its prototype, its function slots and its extensibility, so [C]
    constructs as before, from the same [prototype], and the
    inheritance chains are as they were; every object other than the
    functions that the keys of the configuration name in the method
    table is untouched; and the method table shows at every name what
    it showed. *)
Theorem withErrors_class_frame h h1 c p config methodNames r h' :
  classified user_call h (VObject c) true h1 ->
  has_readonly_prototype h1 c (VObject p) ->
  for_in_keys h1 config = Ok methodNames ->
  reads_outside (is_function h1) h1 (VObject p) ->
  reads_outside (is_function h1) h1 config ->
  (forall m errors, In m methodNames -> get_v h1 config m = Ok errors ->
     reads_outside (is_function h1) h1 errors) ->
  withErrors user_call h (VObject c) config = Ok (r, h') ->
  evolves (annotated h1 p methodNames) h1 h' /\
  function_slots_of h' (VObject c) = function_slots_of h1 (VObject c) /\
  has_readonly_prototype h' c (VObject p) /\
  (forall x, proto_chain h' x = proto_chain h1 x) /\
  (forall x, ~ annotated h1 p methodNames x -> h' !! x = h1 !! x) /\
  (forall m, get_v h' (VObject p) m = get_v h1 (VObject p) m).
Proof.
  intros Hc HP Hks Hrp Hrc Hre Hrun.
  rewrite (withErrors_class_branch _ _ _ _ _ Hc), Hks in Hrun. simpl in Hrun.
  destruct (for_each methodNames _ h1) as [h2| |] eqn:Hloop; simpl in Hrun;
    try discriminate.
  injection Hrun as <- <-.
  assert (forall l, annotated h1 p methodNames l -> is_function h1 l) as Hsub.
  { intros l (m & _ & _ & Hfun). exact Hfun. }
  assert (evolves (annotated h1 p methodNames) h1 h2) as He.
  { apply (class_branch_evolves (annotated h1 p methodNames) h1 c p config methodNames);
      eauto using reads_outside_weaken.
    intros m f Hm Hf Hfun. exists m. auto. }
  split; [exact He|]. split; [eapply evolves_function_slots; eauto|].
  split; [eapply readonly_prototype_evolves; eauto|].
  split; [intros x; eapply evolves_proto_chain; eauto|]. split.
  - intros x Hx. destruct He as [D He]. destruct (h1 !! x) as [o|] eqn:Hox.
    + destruct (He x o Hox) as (o' & -> & _ & _ & _ & Hout & _).
      rewrite (Hout Hx). reflexivity.
    + apply not_elem_of_dom. rewrite D. apply not_elem_of_dom, Hox.
  - intros m. eapply evolves_get_v; eauto using reads_outside_weaken.
Qed.



End Claims.

(** * The claims on the objects of the test suite *)

(** ** Checks that compute *)

Lemma reads_outside_check (W : loc -> Prop) h v test :
  (forall x, test x = true -> ~ W x) ->
  chain_avoids h v test = true -> reads_outside W h v.
Proof.
  intros Htest. unfold chain_avoids.
  destruct (read_chain h v) as [ch|] eqn:Hch; [|discriminate].
  intros Hall. exists ch. split; [exact Hch|].
  intros x Hx. apply Htest. rewrite forallb_forall in Hall. apply Hall, Hx.
Qed.

Lemma reads_outside_other f h v :
  chain_avoids h v (fun x => negb (Pos.eqb f x)) = true -> reads_outside (eq f) h v.
Proof.
  apply reads_outside_check. intros x Hx ->. rewrite Pos.eqb_refl in Hx. discriminate.
Qed.

Lemma reads_outside_functions h v :
  chain_avoids h v (not_function h) = true -> reads_outside (is_function h) h v.
Proof.
  apply reads_outside_check. intros x Hx Hf. unfold not_function, is_function in *.
  destruct (function_slots_of h (VObject x)); [discriminate|congruence].
Qed.

Lemma own_prop_In ps k p : own_prop ps k = Some p -> In (k, p) ps.
Proof.
  induction ps as [|[k' q] ps IH]; simpl; [discriminate|].
  destruct (String.eqb k' k) eqn:E; [|auto].
  apply String.eqb_eq in E. intros [= ->]. left. congruence.
Qed.

Lemma function_call_accepted_check h f source :
  forallb (fun kp => implb (p_enumerable (snd kp)) (accepts h f (fst kp)))
          (own_props_of h source) = true ->
  function_call_accepted h f source.
Proof.
  intros Hall k p Hp Hen. rewrite forallb_forall in Hall.
  specialize (Hall _ (own_prop_In _ _ _ Hp)). simpl in Hall.
  rewrite Hen in Hall. exact Hall.
Qed.

Lemma is_function_check h f : not_function h f = false -> is_function h f.
Proof.
  unfold not_function, is_function. destruct (function_slots_of h (VObject f));
    [discriminate|discriminate].
Qed.

Import Example.

Ltac run := vm_compute; reflexivity.
Ltac classify := eexists; split; [vm_compute; reflexivity|reflexivity].

(** ** The discriminator on the test suite *)

Example isClass_MyClass :
  isClass test_user_call test_heap (VObject MyClass) = Ok (VBool true, test_heap).
Proof. run. Qed.

Example isClass_arrow :
  isClass test_user_call test_heap (VObject arrow) = Ok (VBool false, test_heap).
Proof. run. Qed.

Example builtin_string_form_MyClass : builtin_string_form test_heap (VObject MyClass).
Proof.
  eexists _, (VObject Function_prototype_toString), (VObject String_prototype_startsWith).
  split; [run|]. split; [run|]. split; [eexists; split; [run|split; reflexivity]|].
  split; [run|]. eexists; split; [run|split; reflexivity].
Qed.

(** ** C6: a class that the discriminator misses *)

(** C6.  The class expression [class{ method1() {} }] is a class
    constructor whose source text starts with the keyword [class], yet
    the discriminator answers [false] on it: the text does not start
    with ["class "], keyword and space.  [withErrors] then takes the
    function branch: the configuration [{ method1: { CustomError } }]
    lands on the constructor as a property [method1], and the method
    gets no slot. *)
Theorem isClass_misses_compact_class :
  function_slots_of test_heap (VObject CompactClass)
    = Some (class_definition "class{ method1() {} }") /\
  builtin_string_form test_heap (VObject CompactClass) /\
  isClass test_user_call test_heap (VObject CompactClass) = Ok (VBool false, test_heap) /\
  let after := withErrors test_user_call test_heap (VObject CompactClass) (VObject classConfig) in
  after = Ok (VObject CompactClass, heap_after after) /\
  get_v (heap_after after) (VObject CompactClass) "method1" = Ok (VObject method1Errors) /\
  get_v (heap_after after) (VObject compact_method1) "CustomError" = Ok VUndefined.
Proof.
  split; [run|]. split.
  - eexists _, (VObject Function_prototype_toString), (VObject String_prototype_startsWith).
    split; [run|]. split; [run|]. split; [eexists; split; [run|split; reflexivity]|].
    split; [run|]. eexists; split; [run|split; reflexivity].
  - split; [run|]. split; [run|]. split; run.
Qed.

(** ** C1: calls that throw *)



(** ** The other claims at the test suite's calls *)

(** ['should preserve original function'] and ['should preserve original
    class']. *)
Lemma withErrors_returns_target_witness :
  (withErrors test_user_call test_heap (VObject arrow) (VObject errors)
     = Ok (VObject arrow, after_arrow) /\ VObject arrow = VObject arrow) /\
  (withErrors test_user_call test_heap (VObject MyClass) (VObject classConfig)
     = Ok (VObject MyClass, after_MyClass) /\ VObject MyClass = VObject MyClass) /\
  (exists h', withErrors test_user_call test_heap (VObject arrow) (VObject errors)
              = Ok (VObject arrow, h')).
Proof.
  pose proof (withErrors_returns_target test_user_call test_heap (VObject arrow)
                (VObject errors)) as [Harrow Hreturns]; [run|].
  pose proof (withErrors_returns_target test_user_call test_heap (VObject MyClass)
                (VObject classConfig)) as [HMyClass _]; [run|].
  split; [split; [run|apply (Harrow _ after_arrow); run]|].
  split; [split; [run|apply (HMyClass _ after_MyClass); run]|].
  apply (Hreturns arrow false test_heap); [reflexivity|classify|].
  right. right. apply function_call_accepted_check. run.
Defined.

(** Against C3 as stated: the configuration [{ name: CustomError }]
    meets the read-only [name] of the arrow function; the call throws,
    and [name] is not overwritten. *)
Lemma withErrors_readonly_slot_kept :
  (own_prop (own_props_of test_heap (VObject nameConfig)) "name"
     = Some (literal_property (VObject CustomError)) /\
   own_prop (props_at test_heap arrow) "name"
     = Some (readonly_property (VString EmptyString))) /\
  classified test_user_call test_heap (VObject arrow) false test_heap /\
  withErrors test_user_call test_heap (VObject arrow) (VObject nameConfig)
    = Throw TypeError.
Proof. split; [split; run|]. split; [classify|run]. Qed.

(** ['should merge errors to function'], and the configuration
    [{ name: CustomError }]. *)
Lemma withErrors_function_slots_witness :
  (exists h', withErrors test_user_call test_heap (VObject arrow) (VObject errors)
              = Ok (VObject arrow, h')) /\
  (get_v after_arrow (VObject arrow) "CustomError" = Ok (VObject CustomError) /\
   own_prop (own_props_of after_arrow (VObject errors)) "CustomError"
     = Some (literal_property (VObject CustomError))) /\
  withErrors test_user_call test_heap (VObject arrow) (VObject nameConfig)
    = Throw TypeError.
Proof.
  pose proof (withErrors_function_slots test_user_call test_heap test_heap arrow
                (VObject errors)) as (Hcompletes & Hslots & _); [run|classify|].
  pose proof (withErrors_function_slots test_user_call test_heap test_heap arrow
                (VObject nameConfig)) as (_ & _ & Hrefused); [run|classify|].
  split; [apply Hcompletes, function_call_accepted_check; run|]. split.
  - refine (Hslots (VObject arrow) after_arrow _
              "CustomError" (literal_property (VObject CustomError)) _ _); run.
  - apply (Hrefused "name" (literal_property (VObject CustomError)) []);
      [run|run|eexists; run|run].
Defined.




(** The call of the first test with one more key: [method2], the
    constructor and the method table are as they were. *)
Lemma withErrors_class_frame_witness :
  function_slots_of after_mixed (VObject MyClass)
    = function_slots_of test_heap (VObject MyClass) /\
  after_mixed !! method2 = test_heap !! method2 /\
  after_mixed !! MyClass_prototype = test_heap !! MyClass_prototype /\
  get_v after_mixed (VObject MyClass_prototype) "method2" = Ok (VObject method2).
Proof.
  destruct (withErrors_class_frame test_user_call test_heap test_heap MyClass
              MyClass_prototype (VObject mixedConfig) ["method1"; "noSuchMethod"]
              (VObject MyClass) after_mixed)
    as (_ & Hslots & _ & _ & Hframe & Htable).
  - classify.
  - split; [eexists; run|eexists; split; [run|split; reflexivity]].
  - run.
  - apply reads_outside_functions. run.
  - apply reads_outside_functions. run.
  - intros m errs [<-|[<-|[]]] H; vm_compute in H; injection H as <-;
      apply reads_outside_functions; run.
  - run.
  - assert (forall x, x <> method1 ->
              ~ annotated test_heap MyClass_prototype ["method1"; "noSuchMethod"] x)
      as Hother.
    { intros x Hx (m & [<-|[<-|[]]] & Hf & _); vm_compute in Hf;
        [injection Hf as <-; apply Hx; reflexivity|discriminate]. }
    split; [exact Hslots|]. split; [apply Hframe, Hother; discriminate|].
    split; [apply Hframe, Hother; discriminate|].
    rewrite Htable. run.
Defined.


(** ** C10: own keys and inherited keys *)



(** * Further properties of the code *)

(** ** The function branch, property by property *)

Lemma update_value_same k v ps d :
  own_prop ps k = Some d -> p_value d = v -> update_value k v ps = ps.
Proof.
  induction ps as [|[k' q] ps IH]; simpl; [reflexivity|].
  destruct (String.eqb k' k) eqn:E.
  - intros [= ->] <-. destruct d. reflexivity.
  - intros Hd Hv. rewrite IH; auto.
Qed.

(** An assignment of the value that a writable own property already
    holds leaves the heap as it is. *)
Lemma set_prop_same h l k d :
  is_Some (proto_chain h l) ->
  own_prop (props_at h l) k = Some d -> p_writable d = true ->
  set_prop h l k (p_value d) = Ok h.
Proof.
  intros [ch Hch] Hd Hw. unfold set_prop, props_at in *. rewrite Hch.
  destruct (h !! l) as [o|] eqn:Ho; [|discriminate]. rewrite Hd, Hw.
  rewrite (update_value_same _ _ _ _ Hd eq_refl).
  f_equal. apply insert_id. rewrite Ho. destruct o. reflexivity.
Qed.


Lemma set_prop_own h l k v h' :
  set_prop h l k v = Ok h' ->
  own_prop (props_at h' l) k
    = Some (Data v true (slot_enumerable (own_prop (props_at h l) k))).
Proof.
  intros Hs. destruct (set_prop_written _ _ _ _ _ Hs) as (o & ps' & Ho & -> & _ & Hcase).
  unfold props_at. rewrite lookup_insert_eq, Ho. simpl.
  destruct Hcase as [(p0 & -> & _ & ->)|[-> ->]]; reflexivity.
Qed.

Lemma assign_key_own h f source y h0 h1 k p :
  assign_inv source f h h0 -> assign_key source f y h0 = Ok h1 ->
  own_prop (own_props_of h source) k = Some p -> p_enumerable p = true ->
  (y <> k -> own_prop (props_at h1 f) k = own_prop (props_at h0 f) k) /\
  (y = k -> own_prop (props_at h1 f) k
            = Some (Data (p_value p) true (slot_enumerable (own_prop (props_at h0 f) k)))).
Proof.
  intros [_ Hsrc] Hs Hp Hen. unfold assign_key in Hs. rewrite Hsrc in Hs. split.
  - intros Hy.
    destruct (own_prop (own_props_of h source) y) as [q|];
      [destruct (p_enumerable q)|]; try (injection Hs as <-; reflexivity).
    eapply written_own_other; [eapply set_prop_written, Hs|congruence].
  - intros ->. rewrite Hp, Hen in Hs. apply set_prop_own, Hs.
Qed.

Lemma Object_assign_own h f source r h' k p :
  Object_assign h (VObject f) source = Ok (r, h') ->
  own_prop (own_props_of h source) k = Some p -> p_enumerable p = true ->
  own_prop (props_at h' f) k
    = Some (Data (p_value p) true (slot_enumerable (own_prop (props_at h f) k))).
Proof.
  rewrite Object_assign_object.
  destruct (for_each _ _ h) as [h2| |] eqn:Hloop; simpl; try discriminate.
  intros [= <- <-] Hp Hen.
  set (goal := Some (Data (p_value p) true (slot_enumerable (own_prop (props_at h f) k)))).
  assert (forall own0, own0 = own_prop (props_at h f) k \/ own0 = goal ->
            Some (Data (p_value p) true (slot_enumerable own0)) = goal) as Hgoal.
  { intros own0 [->| ->]; reflexivity. }
  set (I := fun h0 : heap => assign_inv source f h h0 /\
    (own_prop (props_at h0 f) k = own_prop (props_at h f) k \/
     own_prop (props_at h0 f) k = goal)).
  revert Hloop.
  apply (for_each_establishes I (fun h0 => own_prop (props_at h0 f) k = goal))
    with (x := k).
  - eapply own_prop_in_keys, Hp.
  - intros y h0 h1 _ [Hinv Hk] Hs. split; [eapply assign_key_inv; eauto|].
    destruct (assign_key_own _ _ _ _ _ _ _ _ Hinv Hs Hp Hen) as [Hne Heq].
    destruct (String.eqb y k) eqn:E.
    + apply String.eqb_eq in E. right. rewrite (Heq E). apply Hgoal, Hk.
    + apply String.eqb_neq in E. rewrite (Hne E). exact Hk.
  - intros h0 h1 [Hinv Hk] Hs.
    destruct (assign_key_own _ _ _ _ _ _ _ _ Hinv Hs Hp Hen) as [_ Heq].
    rewrite (Heq eq_refl). apply Hgoal, Hk.
  - intros y h0 h1 _ [Hinv _] Hk Hs.
    destruct (assign_key_own _ _ _ _ _ _ _ _ Hinv Hs Hp Hen) as [Hne Heq].
    destruct (String.eqb y k) eqn:E.
    + apply String.eqb_eq in E. rewrite (Heq E). apply Hgoal. right. exact Hk.
    + apply String.eqb_neq in E. rewrite (Hne E). exact Hk.
  - split; [split; [apply evolves_refl|reflexivity]|left; reflexivity].
Qed.

(** On a heap where the target already holds every own enumerable key
    of the source, writable and with the same value, the copy changes
    nothing. *)
Lemma Object_assign_fixed h f source :
  (forall k p, own_prop (own_props_of h source) k = Some p -> p_enumerable p = true ->
     is_Some (proto_chain h f) /\
     exists d, own_prop (props_at h f) k = Some d /\ p_value d = p_value p /\
               p_writable d = true) ->
  Object_assign h (VObject f) source = Ok (VObject f, h).
Proof.
  intros Hheld. rewrite Object_assign_object.
  destruct (for_each_completes (fun h0 => h0 = h)
              (own_keys (own_props_of h source)) (assign_key source f) h)
    as (h' & -> & ->); [|reflexivity|reflexivity].
  intros k h0 _ ->. exists h. split; [|reflexivity]. unfold assign_key.
  destruct (own_prop (own_props_of h source) k) as [p|] eqn:Hp; [|reflexivity].
  destruct (p_enumerable p) eqn:Hen; [|reflexivity].
  destruct (Hheld k p Hp Hen) as (Hch & d & Hd & <- & Hw).
  apply set_prop_same; assumption.
Qed.

Lemma accepts_chain h l k : accepts h l k = true -> is_Some (proto_chain h l).
Proof.
  unfold accepts. destruct (h !! l); [|discriminate].
  destruct (proto_chain h l); [eauto|discriminate].
Qed.

Section Further.

Variable user_call : nat -> heap -> value -> list value -> result (value * heap).

(** ** The discriminator *)

(** X1.  On a function whose [toString] is the built-in one, [isClass]
    answers whether the source text of the function starts with
    ["class "], whatever kind of function it is, and leaves the heap as
    it is. *)
Theorem isClass_source_text h v fs :
  function_slots_of h v = Some fs -> builtin_string_form h v ->
  isClass user_call h v = Ok (VBool (String.prefix "class " (source_text fs)), h).
Proof. apply isClass_builtin. Qed.

(** X2.  [isClass] goes by what [input.toString()] returns, built-in or
    not: a string decides by its first six characters, on the heap that
    the call of [toString] leaves; [undefined] or [null] makes
    [isClass] throw a [TypeError]. *)
Theorem isClass_follows_toString h v toString text h1 :
  typeof h v = "function" ->
  get_v h v "toString" = Ok toString ->
  call_function user_call h toString v [] = Ok (text, h1) ->
  (forall s sw, text = VString s ->
     get_v h1 (VString s) "startsWith" = Ok sw ->
     runs h1 sw StringPrototypeStartsWith ->
     isClass user_call h v = Ok (VBool (String.prefix "class " s), h1)) /\
  (text = VUndefined \/ text = VNull -> isClass user_call h v = Throw TypeError).
Proof.
  intros Hty Hts Hcall. unfold isClass. rewrite Hty. simpl. rewrite Hts. simpl.
  rewrite Hcall. simpl. split.
  - intros s sw -> Hsw (sfs & Hsfs & Hsc & Hsb). rewrite Hsw. simpl.
    unfold call_function. rewrite Hsfs, Hsc, Hsb. reflexivity.
  - intros [->| ->]; reflexivity.
Qed.

(** ** Targets that are not objects *)

(** X3.  On a target that is not an object the call takes the function
    branch without asking for a string form.  [null] and [undefined]
    make it throw a [TypeError] whatever the configuration.  A boolean,
    a number or a string is wrapped: what the call returns is a new
    object, not the target. *)
Theorem withErrors_non_object_target h target config :
  is_primitive target = true ->
  (forall r h', withErrors user_call h target config = Ok (r, h') ->
     r = VObject (fresh (dom h)) /\ r <> target /\
     h !! fresh (dom h) = None /\ is_Some (h' !! fresh (dom h))) /\
  withErrors user_call h VNull config = Throw TypeError /\
  withErrors user_call h VUndefined config = Throw TypeError.
Proof.
  intros Hprim. split; [|split; reflexivity].
  intros r h' Hrun.
  assert (exists w, withErrors user_call h target config
                    = Object_assign (<[fresh (dom h) := w]> h)
                        (VObject (fresh (dom h))) config) as [w Hw].
  { destruct target; try discriminate; eexists; reflexivity. }
  rewrite Hw in Hrun. apply Object_assign_result in Hrun.
  destruct Hrun as (-> & [[D _] _] & _).
  split; [reflexivity|]. split; [destruct target; discriminate|].
  split; [apply not_elem_of_dom, is_fresh|].
  apply elem_of_dom. rewrite D. apply elem_of_dom. rewrite lookup_insert_eq. eauto.
Qed.

(** ** Configurations without keys *)

(** X4.  A configuration that brings no key changes nothing: in the
    function branch when it has no own enumerable property ([null],
    [undefined], [{}], a number), in the class branch when [for ... in]
    finds no key in it.  The call returns the target, on the heap that
    the discriminator left. *)
Theorem withErrors_empty_config h h1 f config b :
  classified user_call h (VObject f) b h1 ->
  (if b then for_in_keys h1 config = Ok []
   else forall k p, own_prop (own_props_of h1 config) k = Some p ->
                    p_enumerable p = false) ->
  withErrors user_call h (VObject f) config = Ok (VObject f, h1).
Proof.
  intros Hc Hempty. destruct b.
  - rewrite (withErrors_class_branch _ _ _ _ _ Hc), Hempty. reflexivity.
  - rewrite (withErrors_function_branch _ _ _ _ _ Hc). apply Object_assign_fixed.
    intros k p Hp Hen. rewrite (Hempty k p Hp) in Hen. discriminate.
Qed.

(** ** The function branch *)



(** X7.  The function branch is idempotent: a second call with the same
    configuration, on the heap that the first call left, returns the
    same function and leaves that heap exactly as it is. *)
Theorem withErrors_function_idempotent h h1 f config r h2 :
  classified user_call h (VObject f) false h1 ->
  withErrors user_call h (VObject f) config = Ok (r, h2) ->
  classified user_call h2 (VObject f) false h2 ->
  withErrors user_call h2 (VObject f) config = Ok (r, h2).
Proof.
  intros Hc Hrun Hc2. rewrite (withErrors_function_branch _ _ _ _ _ Hc) in Hrun.
  rewrite (withErrors_function_branch _ _ _ _ _ Hc2).
  pose proof (Object_assign_result _ _ _ _ _ Hrun) as (-> & [_ Hsrc] & Hslots).
  apply Object_assign_fixed. intros k p Hp Hen. rewrite Hsrc in Hp.
  destruct (Hslots k p Hp Hen) as [_ Hacc]. split; [eapply accepts_chain, Hacc|].
  eexists. split; [eapply Object_assign_own; eauto|]. split; reflexivity.
Qed.

End Further.

(** ** The class branch, method by method *)

Section ClassMethods.

Variable W : loc -> Prop.
Variable h1 : heap.
Variables c p : loc.
Variable errorConfig : value.
Variable methodNames : list string.

Hypothesis Hprototype : has_readonly_prototype h1 c (VObject p).
Hypothesis Htable : reads_outside W h1 (VObject p).
Hypothesis Hconfig : reads_outside W h1 errorConfig.
Hypothesis Herrors : forall m errors,
  In m methodNames -> get_v h1 errorConfig m = Ok errors -> reads_outside W h1 errors.
Hypothesis Hmethods : forall m f,
  In m methodNames -> get_v h1 (VObject p) m = Ok (VObject f) -> is_function h1 f -> W f.

(** One turn of the outer loop on a method that is there: the slots of
    its configuration end up on its function, and nothing else
    changes. *)
Lemma annotate_method_slots m f errors names h h' :
  In m methodNames ->
  get_v h1 (VObject p) m = Ok (VObject f) -> is_function h1 f ->
  get_v h1 errorConfig m = Ok errors -> for_in_keys h1 errors = Ok names ->
  evolves W h1 h ->
  annotate_method (VObject c) errorConfig m h = Ok h' ->
  evolves (eq f) h h' /\
  forall e, In e names ->
    is_Some (proto_chain h' f) /\
    exists v d, get_v h1 errors e = Ok v /\
                own_prop (props_at h' f) e = Some d /\ p_value d = v.
Proof.
  intros Hm Hf Hfun Herr Hnames He.
  pose proof (annotate_slot_evolves W h1 c p errorConfig methodNames
                Hprototype Htable Herrors Hmethods m f errors) as Hslot.
  unfold annotate_method.
  rewrite (readonly_prototype_get h c (VObject p))
    by (eapply readonly_prototype_evolves; eauto).
  simpl. rewrite (evolves_get_v _ _ _ _ _ He Htable), Hf. simpl.
  rewrite (evolves_typeof _ _ _ _ He), (is_function_typeof _ _ Hfun). simpl.
  rewrite (evolves_get_v _ _ _ _ _ He Hconfig), Herr. simpl.
  rewrite (evolves_for_in_keys _ _ _ _ He (Herrors _ _ Hm Herr)), Hnames. simpl.
  intros Hloop.
  set (I := fun h0 : heap => evolves W h1 h0 /\ evolves (eq f) h h0).
  assert (forall e h0 h2, I h0 -> annotate_slot (VObject c) m errors e h0 = Ok h2 ->
            I h2 /\ exists v, get_v h1 errors e = Ok v /\ set_prop h0 f e v = Ok h2)
    as Hstep.
  { intros e h0 h2 [He0 Hf0] Hs.
    destruct (Hslot e h0 h2 Hm Hf Hfun Herr He0 Hs) as (He2 & v & Hv & Hset).
    split; [split; [exact He2|]|eauto].
    eapply evolves_trans; [exact Hf0|]. eapply set_prop_evolves; eauto. }
  assert (I h) as HI by (split; [exact He|apply evolves_refl]).
  split.
  { apply (for_each_invariant I names (annotate_slot (VObject c) m errors) h h');
      [|exact HI|exact Hloop].
    intros e h0 h2 _ HI0 Hs. apply (Hstep e h0 h2 HI0 Hs). }
  intros e He_in.
  destruct (for_in_keys_nonempty _ _ _ _ Hnames He_in) as [He1 He2].
  destruct (reads_outside_get_v _ _ _ e (Herrors _ _ Hm Herr) He1 He2) as [v Hv].
  set (Q := fun h0 : heap => is_Some (proto_chain h0 f) /\
    exists d, own_prop (props_at h0 f) e = Some d /\ p_value d = v).
  assert (Q h') as (Hch & d & Hd & Hdv); [|split; [exact Hch|exists v, d; auto]].
  apply (for_each_establishes I Q names (annotate_slot (VObject c) m errors) h h' e);
    [exact He_in| | | |exact HI|exact Hloop].
  - intros y h0 h2 _ HI0 Hs. apply (Hstep y h0 h2 HI0 Hs).
  - intros h0 h2 HI0 Hs. destruct (Hstep e h0 h2 HI0 Hs) as (_ & v' & Hv' & Hset).
    assert (v' = v) as -> by congruence. split.
    + rewrite (evolves_proto_chain (eq f) h0 h2) by (eapply set_prop_evolves; eauto).
      eapply set_prop_chain, Hset.
    + rewrite (set_prop_own _ _ _ _ _ Hset). eauto.
  - intros y h0 h2 _ HI0 (Hch & d & Hd & Hdv) Hs.
    destruct (Hstep y h0 h2 HI0 Hs) as (_ & v' & Hv' & Hset). split.
    + rewrite (evolves_proto_chain (eq f) h0 h2) by (eapply set_prop_evolves; eauto).
      exact Hch.
    + destruct (String.eqb y e) eqn:E.
      * apply String.eqb_eq in E. subst y. assert (v' = v) as -> by congruence.
        rewrite (set_prop_own _ _ _ _ _ Hset). eauto.
      * apply String.eqb_neq in E.
        rewrite (written_own_other _ _ _ _ _ e (set_prop_written _ _ _ _ _ Hset))
          by congruence.
        eauto.
Qed.

(** One turn of the outer loop changes nothing, or changes the function
    that the key names in the method table and nothing else. *)
Lemma annotate_method_cases m h h' :
  In m methodNames -> evolves W h1 h ->
  annotate_method (VObject c) errorConfig m h = Ok h' ->
  h' = h \/
  exists f, get_v h1 (VObject p) m = Ok (VObject f) /\ is_function h1 f /\
            evolves (eq f) h h'.
Proof.
  intros Hm He Hrun. pose proof Hrun as Hrun'. revert Hrun'. unfold annotate_method.
  rewrite (readonly_prototype_get h c (VObject p))
    by (eapply readonly_prototype_evolves; eauto).
  simpl. rewrite (evolves_get_v _ _ _ _ _ He Htable).
  destruct (get_v h1 (VObject p) m) as [method| |] eqn:Hmeth; simpl; try discriminate.
  rewrite (evolves_typeof _ _ _ _ He).
  destruct (String.eqb (typeof h1 method) "function") eqn:Hty;
    [|intros [= <-]; left; reflexivity].
  apply String.eqb_eq, typeof_function_object in Hty. destruct Hty as (f & -> & Hfun).
  rewrite (evolves_get_v _ _ _ _ _ He Hconfig).
  destruct (get_v h1 errorConfig m) as [errors| |] eqn:Herr; simpl; try discriminate.
  rewrite (evolves_for_in_keys _ _ _ _ He (Herrors _ _ Hm Herr)).
  destruct (for_in_keys h1 errors) as [names| |] eqn:Hnames; simpl; try discriminate.
  intros _. right. exists f. split; [reflexivity|]. split; [exact Hfun|].
  eapply annotate_method_slots; eauto.
Qed.

End ClassMethods.

Lemma alloc_new_chain (h : heap) i o q ch :
  h !! i = None -> proto o = Some q -> proto_chain h q = Some ch ->
  proto_chain (<[i:=o]> h) i = Some (i :: ch).
Proof.
  intros Hi Hq Hch. unfold proto_chain.
  rewrite map_size_insert_None by exact Hi. simpl. rewrite lookup_insert_eq, Hq.
  rewrite (proto_chain_from_mono (size h) (size h) h (<[i:=o]> h) q ch);
    [reflexivity|exact Hch|lia|apply insert_subseteq, Hi].
Qed.

Lemma alloc_function_slots (h : heap) i o v :
  h !! i = None -> function_slots_of h v <> None ->
  function_slots_of (<[i:=o]> h) v = function_slots_of h v.
Proof.
  intros Hi. destruct v as [| | | | |l]; simpl; auto.
  destruct (decide (l = i)) as [->|Hl].
  - rewrite Hi. congruence.
  - rewrite lookup_insert_ne by congruence. reflexivity.
Qed.

(** An object created with the prototype that a constructor shows is an
    instance of that constructor. *)
Lemma instance_of_new (h : heap) i o ctor q :
  h !! i = None -> proto o = Some q -> is_function h ctor ->
  get_v h (VObject ctor) "prototype" = Ok (VObject q) ->
  is_Some (proto_chain h q) ->
  instance_of (<[i:=o]> h) (VObject i) (VObject ctor) = Ok true.
Proof.
  intros Hi Hq Hfun Hproto [ch Hch]. unfold instance_of.
  rewrite (alloc_function_slots _ _ o _ Hi Hfun).
  unfold is_function in Hfun.
  destruct (function_slots_of h (VObject ctor)); [|congruence].
  rewrite (alloc_get_v _ _ o _ _ _ Hi Hproto). simpl.
  rewrite (alloc_new_chain _ _ _ _ _ Hi Hq Hch). simpl.
  destruct (proto_chain_head _ _ _ Hch) as [t ->]. simpl.
  rewrite Pos.eqb_refl. reflexivity.
Qed.

Section FurtherClass.

Variable user_call : nat -> heap -> value -> list value -> result (value * heap).

(** X8.  A configuration that names several methods, as the README has
    for [UserService]: after a completed call each method function that
    one key of the configuration names carries every slot of that
    key's value. *)
Theorem withErrors_each_method h h1 c p config methodNames r h'
    m f errors names :
  classified user_call h (VObject c) true h1 ->
  has_readonly_prototype h1 c (VObject p) ->
  for_in_keys h1 config = Ok methodNames ->
  reads_outside (is_function h1) h1 (VObject p) ->
  reads_outside (is_function h1) h1 config ->
  (forall m' errors', In m' methodNames -> get_v h1 config m' = Ok errors' ->
     reads_outside (is_function h1) h1 errors') ->
  withErrors user_call h (VObject c) config = Ok (r, h') ->
  In m methodNames ->
  get_v h1 (VObject p) m = Ok (VObject f) -> is_function h1 f ->
  (forall m', In m' methodNames -> get_v h1 (VObject p) m' = Ok (VObject f) -> m' = m) ->
  get_v h1 config m = Ok errors -> for_in_keys h1 errors = Ok names ->
  forall e, In e names ->
    exists v, get_v h1 errors e = Ok v /\ get_v h' (VObject f) e = Ok v.
Proof.
  intros Hc HP Hks Hrp Hrc Hre Hrun Hm Hf Hfun Hone Herr Hnames.
  rewrite (withErrors_class_branch _ _ _ _ _ Hc), Hks in Hrun. simpl in Hrun.
  destruct (for_each methodNames _ h1) as [h2| |] eqn:Hloop; simpl in Hrun;
    try discriminate.
  injection Hrun as <- <-.
  assert (forall m' f', In m' methodNames -> get_v h1 (VObject p) m' = Ok (VObject f') ->
            is_function h1 f' -> is_function h1 f') as Hmethods by auto.
  set (Q := fun h0 : heap => forall e, In e names ->
    is_Some (proto_chain h0 f) /\
    exists v d, get_v h1 errors e = Ok v /\
                own_prop (props_at h0 f) e = Some d /\ p_value d = v).
  assert (Q h2) as HQ.
  { apply (for_each_establishes (evolves (is_function h1) h1) Q methodNames
             (annotate_method (VObject c) config) h1 h2 m);
      [exact Hm| | | |apply evolves_refl|exact Hloop].
    - intros y h0 h3 Hy He0 Hs.
      eapply (annotate_method_evolves (is_function h1) h1 c p config methodNames);
        eauto.
    - intros h0 h3 He0 Hs.
      exact (proj2 (annotate_method_slots (is_function h1) h1 c p config methodNames
                      HP Hrp Hrc Hre Hmethods m f errors names h0 h3
                      Hm Hf Hfun Herr Hnames He0 Hs)).
    - intros y h0 h3 Hy He0 HQ0 Hs.
      destruct (annotate_method_cases (is_function h1) h1 c p config methodNames
                  HP Hrp Hrc Hre Hmethods y h0 h3 Hy He0 Hs)
        as [->|(f' & Hf' & Hfun' & Hev)]; [exact HQ0|].
      destruct (decide (f' = f)) as [->|Hne].
      + rewrite (Hone y Hy Hf') in Hs.
        exact (proj2 (annotate_method_slots (is_function h1) h1 c p config methodNames
                        HP Hrp Hrc Hre Hmethods m f errors names h0 h3
                        Hm Hf Hfun Herr Hnames He0 Hs)).
      + intros e He. destruct (HQ0 e He) as (Hch & v & d & Hv & Hd & Hdv).
        rewrite (evolves_proto_chain _ _ _ _ Hev), (evolves_props_at _ _ _ f Hev)
          by congruence.
        split; [exact Hch|eauto]. }
  intros e He. destruct (HQ e He) as (Hch & v & d & Hv & Hd & <-).
  exists (p_value d). split; [exact Hv|]. apply own_get_v; assumption.
Qed.

(** X9.  In the class branch a slot that the method function does not
    accept, such as one named [name] or [length], is not skipped: the
    call throws a [TypeError]. *)
Theorem withErrors_method_slot_refused h h1 C P f config m errors k Ctor :
  classified user_call h C true h1 ->
  get_v h1 C "prototype" = Ok P ->
  get_v h1 P m = Ok (VObject f) -> is_function h1 f ->
  for_in_keys h1 config = Ok [m] -> get_v h1 config m = Ok errors ->
  for_in_keys h1 errors = Ok [k] -> get_v h1 errors k = Ok Ctor ->
  is_Some (proto_chain h1 f) -> accepts h1 f k = false ->
  withErrors user_call h C config = Throw TypeError.
Proof.
  intros Hc HP Hf Hfun Hks Herr Hnames HCtor Hch Hacc.
  rewrite (withErrors_single_slot _ _ _ _ _ _ _ _ _ _ _
             Hc HP Hf Hfun Hks Herr Hnames HCtor).
  rewrite set_prop_refused; auto.
  unfold is_function in Hfun. simpl in Hfun.
  destruct (h1 !! f); [eauto|congruence].
Qed.

(** X10.  A function that the discriminator takes for a class but that
    shows no [prototype] (an arrow function or a method whose
    [toString] answers the text of a class) makes the call throw a
    [TypeError] as soon as the configuration has a key. *)
Theorem withErrors_class_without_prototype h h1 C P config m methodNames :
  classified user_call h C true h1 ->
  get_v h1 C "prototype" = Ok P -> P = VUndefined \/ P = VNull ->
  for_in_keys h1 config = Ok (m :: methodNames) ->
  withErrors user_call h C config = Throw TypeError.
Proof.
  intros Hc HP HPnull Hks.
  rewrite (withErrors_class_branch _ _ _ _ _ Hc), Hks. simpl.
  unfold annotate_method. rewrite HP. simpl.
  destruct HPnull as [->| ->]; reflexivity.
Qed.

(** X11.  The slot is the constructor: an error object created from the
    constructor after the call is an instance of what the slot of the
    function shows, which is what the tests check with
    [toThrow(test.CustomError)] and the README with
    [error instanceof fetchUserData.ValidationError]. *)
Theorem withErrors_slot_instanceof h h1 f config r h' K p ctor q :
  classified user_call h (VObject f) false h1 ->
  withErrors user_call h (VObject f) config = Ok (r, h') ->
  own_prop (own_props_of h1 config) K = Some p -> p_enumerable p = true ->
  p_value p = VObject ctor -> is_function h1 ctor ->
  get_v h1 (VObject ctor) "prototype" = Ok (VObject q) ->
  reads_outside (eq f) h1 (VObject ctor) ->
  is_Some (proto_chain h1 q) ->
  forall i o, h' !! i = None -> proto o = Some q ->
    exists slot, get_v (<[i:=o]> h') (VObject f) K = Ok slot /\
                 instance_of (<[i:=o]> h') (VObject i) slot = Ok true.
Proof.
  intros Hc Hrun Hp Hen Hpv Hfun Hproto Hread Hch i o Hi Hq.
  rewrite (withErrors_function_branch _ _ _ _ _ Hc) in Hrun.
  pose proof (Object_assign_result _ _ _ _ _ Hrun) as (_ & [He _] & Hslots).
  destruct (Hslots K p Hp Hen) as [Hslot _]. rewrite Hpv in Hslot.
  exists (VObject ctor). split; [apply alloc_get_v; assumption|].
  apply instance_of_new with q; auto.
  - unfold is_function. rewrite (evolves_function_slots _ _ _ _ He). exact Hfun.
  - rewrite (evolves_get_v _ _ _ _ _ He Hread). exact Hproto.
  - rewrite (evolves_proto_chain _ _ _ _ He). exact Hch.
Qed.

(** X12.  Annotating a class changes nothing to what is an instance of
    it: [x instanceof C] answers after the call what it answered
    before, and an object created from [C] after the call is an
    instance of [C], as ['should preserve original class'] expects. *)
Theorem withErrors_class_instanceof h h1 c p config methodNames r h' :
  classified user_call h (VObject c) true h1 ->
  has_readonly_prototype h1 c (VObject p) ->
  for_in_keys h1 config = Ok methodNames ->
  reads_outside (is_function h1) h1 (VObject p) ->
  reads_outside (is_function h1) h1 config ->
  (forall m errors, In m methodNames -> get_v h1 config m = Ok errors ->
     reads_outside (is_function h1) h1 errors) ->
  withErrors user_call h (VObject c) config = Ok (r, h') ->
  (forall x, instance_of h' x (VObject c) = instance_of h1 x (VObject c)) /\
  (forall i o, h' !! i = None -> proto o = Some p -> is_function h1 c ->
     instance_of (<[i:=o]> h') (VObject i) r = Ok true).
Proof.
  intros Hc HP Hks Hrp Hrc Hre Hrun.
  rewrite (withErrors_class_branch _ _ _ _ _ Hc), Hks in Hrun. simpl in Hrun.
  destruct (for_each methodNames _ h1) as [h2| |] eqn:Hloop; simpl in Hrun;
    try discriminate.
  injection Hrun as <- <-.
  assert (evolves (is_function h1) h1 h2) as He.
  { apply (class_branch_evolves (is_function h1) h1 c p config methodNames); auto. }
  pose proof (readonly_prototype_evolves _ _ _ _ _ He HP) as HP2.
  split.
  - intros x. unfold instance_of.
    rewrite (evolves_function_slots _ _ _ _ He).
    rewrite (readonly_prototype_get _ _ _ HP), (readonly_prototype_get _ _ _ HP2).
    destruct x; try reflexivity. simpl.
    rewrite (evolves_proto_chain _ _ _ _ He). reflexivity.
  - intros i o Hi Hq Hfun. apply instance_of_new with p; auto.
    + unfold is_function. rewrite (evolves_function_slots _ _ _ _ He). exact Hfun.
    + apply readonly_prototype_get, HP2.
    + rewrite (evolves_proto_chain _ _ _ _ He).
      destruct Hrp as (ch & Hch & _). simpl in Hch. eauto.
Qed.

End FurtherClass.

(** * The further properties on the objects of the tests and of the README *)

Import Usage.

Ltac builtin :=
  eexists _, (VObject Function_prototype_toString), (VObject String_prototype_startsWith);
  split; [run|]; split; [run|]; split; [eexists; split; [run|split; reflexivity]|];
  split; [run|]; eexists; split; [run|split; reflexivity].

(** The class of the tests, and one of its methods, whose text starts
    with its name. *)
Lemma isClass_source_text_witness :
  isClass test_user_call test_heap (VObject MyClass) = Ok (VBool true, test_heap) /\
  isClass test_user_call test_heap (VObject method2) = Ok (VBool false, test_heap).
Proof.
  split.
  - apply (isClass_source_text test_user_call test_heap (VObject MyClass)
             (class_definition
                "class MyClass { method1() { throw new CustomError(); } method2() {} }"));
      [run|builtin].
  - apply (isClass_source_text test_user_call test_heap (VObject method2)
             (user_function "method2() {}" 1)); [run|builtin].
Defined.

(** An arrow function with a [toString] of its own that answers the
    text of a class, and one whose [toString] answers [undefined]. *)
Lemma isClass_follows_toString_witness :
  isClass usage_user_call usage_heap (VObject spoof) = Ok (VBool true, usage_heap) /\
  isClass usage_user_call usage_heap (VObject voidText) = Throw TypeError.
Proof.
  split.
  - destruct (isClass_follows_toString usage_user_call usage_heap (VObject spoof)
                (VObject spoof_toString) (VString "class Spoof {}") usage_heap)
      as [Hstring _]; [run|run|run|].
    apply (Hstring "class Spoof {}" (VObject String_prototype_startsWith));
      [reflexivity|run|eexists; split; [run|split; reflexivity]].
  - destruct (isClass_follows_toString usage_user_call usage_heap (VObject voidText)
                (VObject voidText_toString) VUndefined usage_heap)
      as [_ Hvoid]; [run|run|run|].
    apply Hvoid. left. reflexivity.
Defined.

(** [withErrors(1, { CustomError })] and [withErrors(null, { CustomError })]. *)
Lemma withErrors_non_object_target_witness :
  (exists l h', withErrors test_user_call test_heap (VNumber 1) (VObject errors)
                  = Ok (VObject l, h') /\
                test_heap !! l = None /\ is_Some (h' !! l)) /\
  withErrors test_user_call test_heap VNull (VObject errors) = Throw TypeError.
Proof.
  destruct (withErrors_non_object_target test_user_call test_heap (VNumber 1)
              (VObject errors)) as (Hwrapped & Hnull & _); [reflexivity|].
  split; [|exact Hnull].
  destruct (withErrors test_user_call test_heap (VNumber 1) (VObject errors))
    as [[r h']| |] eqn:Hrun; [|vm_compute in Hrun; discriminate..].
  destruct (Hwrapped r h' eq_refl) as (-> & _ & Hnew & Hthere).
  exists (fresh (dom test_heap)), h'. auto.
Defined.

(** [withErrors(fn, {})], [withErrors(MyClass, {})] and
    [withErrors(fn, undefined)]. *)
Lemma withErrors_empty_config_witness :
  withErrors usage_user_call usage_heap (VObject arrow) (VObject emptyConfig)
    = Ok (VObject arrow, usage_heap) /\
  withErrors usage_user_call usage_heap (VObject MyClass) (VObject emptyConfig)
    = Ok (VObject MyClass, usage_heap) /\
  withErrors usage_user_call usage_heap (VObject arrow) VUndefined
    = Ok (VObject arrow, usage_heap).
Proof.
  split; [|split].
  - apply (withErrors_empty_config usage_user_call usage_heap usage_heap arrow
             (VObject emptyConfig) false); [classify|].
    intros k p H. vm_compute in H. discriminate.
  - apply (withErrors_empty_config usage_user_call usage_heap usage_heap MyClass
             (VObject emptyConfig) true); [classify|run].
  - apply (withErrors_empty_config usage_user_call usage_heap usage_heap arrow
             VUndefined false); [classify|].
    intros k p H. vm_compute in H. discriminate.
Defined.



(** ['should merge errors to function'], called a second time. *)
Lemma withErrors_function_idempotent_witness :
  withErrors test_user_call after_arrow (VObject arrow) (VObject errors)
    = Ok (VObject arrow, after_arrow).
Proof.
  apply (withErrors_function_idempotent test_user_call test_heap test_heap arrow
           (VObject errors) (VObject arrow) after_arrow); [classify|run|classify].
Defined.

(** A configuration for [method1] and [method2], as the README has for
    [UserService]. *)
Lemma withErrors_each_method_witness :
  get_v after_service (VObject method1) "CustomError" = Ok (VObject CustomError) /\
  get_v after_service (VObject method2) "CustomError" = Ok (VObject OtherError).
Proof.
  assert (forall m f errs names e,
            In m ["method1"; "method2"] ->
            get_v usage_heap (VObject MyClass_prototype) m = Ok (VObject f) ->
            is_function usage_heap f ->
            (forall m', In m' ["method1"; "method2"] ->
               get_v usage_heap (VObject MyClass_prototype) m' = Ok (VObject f) -> m' = m) ->
            get_v usage_heap (VObject serviceConfig) m = Ok errs ->
            for_in_keys usage_heap errs = Ok names -> In e names ->
            exists v, get_v usage_heap errs e = Ok v /\
                      get_v after_service (VObject f) e = Ok v) as Heach.
  { intros m f errs names e Hm Hf Hfun Hone Herrs Hnames He.
    apply (withErrors_each_method usage_user_call usage_heap usage_heap MyClass
             MyClass_prototype (VObject serviceConfig) ["method1"; "method2"]
             (VObject MyClass) after_service m f errs names); try assumption.
    - classify.
    - split; [eexists; run|eexists; split; [run|split; reflexivity]].
    - run.
    - apply reads_outside_functions. run.
    - apply reads_outside_functions. run.
    - intros m' errs' [<-|[<-|[]]] H; vm_compute in H; injection H as <-;
        apply reads_outside_functions; run.
    - run. }
  split.
  - destruct (Heach "method1" method1 (VObject method1Errors) ["CustomError"]
                "CustomError")
      as (v & Hv & Hslot); [left; reflexivity|run|apply is_function_check; run| |run|run
                            |left; reflexivity|].
    + intros m' [<-|[<-|[]]] H; [reflexivity|vm_compute in H; discriminate].
    + vm_compute in Hv. injection Hv as <-. exact Hslot.
  - destruct (Heach "method2" method2 (VObject errorsB) ["CustomError"]
                "CustomError")
      as (v & Hv & Hslot); [right; left; reflexivity|run|apply is_function_check; run|
                            |run|run|left; reflexivity|].
    + intros m' [<-|[<-|[]]] H; [vm_compute in H; discriminate|reflexivity].
    + vm_compute in Hv. injection Hv as <-. exact Hslot.
Defined.

(** [withErrors(MyClass, { method1: { name: CustomError } })]. *)
Lemma withErrors_method_slot_refused_witness :
  withErrors usage_user_call usage_heap (VObject MyClass) (VObject nameSlotConfig)
    = Throw TypeError.
Proof.
  apply (withErrors_method_slot_refused usage_user_call usage_heap usage_heap
           (VObject MyClass) (VObject MyClass_prototype) method1
           (VObject nameSlotConfig) "method1" (VObject nameSlots) "name"
           (VObject CustomError));
    [classify|run|run|apply is_function_check; run|run|run|run|run|eexists; run|run].
Defined.

(** An arrow function whose [toString] answers ["class Spoof {}"],
    with the configuration of the tests. *)
Lemma withErrors_class_without_prototype_witness :
  withErrors usage_user_call usage_heap (VObject spoof) (VObject classConfig)
    = Throw TypeError.
Proof.
  apply (withErrors_class_without_prototype usage_user_call usage_heap usage_heap
           (VObject spoof) VUndefined (VObject classConfig) "method1" []);
    [classify|run|left; reflexivity|run].
Defined.

(** ['should be able to check instance of in error']: an error created
    by [new CustomError()] after the call is an instance of
    [test.CustomError]. *)
Lemma withErrors_slot_instanceof_witness :
  exists slot,
    get_v (<[51%positive := ordinary (Some CustomError_prototype) []]> after_arrow)
          (VObject arrow) "CustomError" = Ok slot /\
    instance_of (<[51%positive := ordinary (Some CustomError_prototype) []]> after_arrow)
                (VObject 51%positive) slot = Ok true.
Proof.
  apply (withErrors_slot_instanceof test_user_call test_heap test_heap arrow
           (VObject errors) (VObject arrow) after_arrow "CustomError"
           (literal_property (VObject CustomError)) CustomError CustomError_prototype);
    [classify|run|run|reflexivity|reflexivity|apply is_function_check; run|run
    |apply reads_outside_other; run|eexists; run|run|reflexivity].
Defined.

(** ['should preserve original class']: [instance], created before the
    call, and an instance created after it are instances of the class
    that the call returns. *)
Lemma withErrors_class_instanceof_witness :
  instance_of after_MyClass (VObject instance) (VObject MyClass)
    = instance_of test_heap (VObject instance) (VObject MyClass) /\
  instance_of (<[51%positive := ordinary (Some MyClass_prototype) []]> after_MyClass)
              (VObject 51%positive) (VObject MyClass) = Ok true.
Proof.
  destruct (withErrors_class_instanceof test_user_call test_heap test_heap MyClass
              MyClass_prototype (VObject classConfig) ["method1"] (VObject MyClass)
              after_MyClass) as [Hbefore Hafter].
  - classify.
  - split; [eexists; run|eexists; split; [run|split; reflexivity]].
  - run.
  - apply reads_outside_functions. run.
  - apply reads_outside_functions. run.
  - intros m errs [<-|[]] H; vm_compute in H; injection H as <-;
      apply reads_outside_functions; run.
  - run.
  - split; [apply Hbefore|].
    apply (Hafter 51%positive (ordinary (Some MyClass_prototype) []));
      [run|reflexivity|apply is_function_check; run].
Defined.
